(** * Gallery lightbox (js/gallery-lightbox.js)

    A shallow embedding of the lightbox controller of the photo gallery
    and the properties of its operations: [showAt] (DisplayItem),
    [showByOffset] (Navigate), [openLightbox] (Activate),
    [closeLightbox] (Deactivate) and the event handlers that call them. *)

From Stdlib Require Import ZArith List String Bool Lia.
Import ListNotations.
Local Open Scope Z_scope.
Local Open Scope string_scope.
Set Warnings "-register-all".

(** ** DOM trees

    The gallery markup and the clones made of it are values: an element
    has a local name, a class token list ([classList]), the rest of its
    attributes in document order, and its children. *)
Module Dom.

Inductive node : Type :=
| Text (data : string)
| Element (tag : string) (classes : list string)
          (attrs : list (string * string)) (children : list node).

Definition childNodes (n : node) : list node :=
  match n with
  | Text _ => []
  | Element _ _ _ ch => ch
  end.

Definition classList (n : node) : list string :=
  match n with
  | Text _ => []
  | Element _ cs _ _ => cs
  end.

Definition attributes (n : node) : list (string * string) :=
  match n with
  | Text _ => []
  | Element _ _ a _ => a
  end.

Definition hasTag (t : string) (n : node) : bool :=
  match n with
  | Text _ => false
  | Element t' _ _ _ => String.eqb t' t
  end.

(** The induction principle that reaches the children. *)
Section NodeInd.
Variable P : node -> Prop.
Hypothesis HText : forall d, P (Text d).
Hypothesis HElement :
  forall t cs a ch, Forall P ch -> P (Element t cs a ch).

Fixpoint node_ind' (n : node) : P n :=
  match n with
  | Text d => HText d
  | Element t cs a ch =>
      HElement t cs a ch
        ((fix all (l : list node) : Forall P l :=
            match l with
            | [] => Forall_nil P
            | c :: r => Forall_cons c (node_ind' c) (all r)
            end) ch)
  end.
End NodeInd.

(** *** Attributes *)

Fixpoint lookupAttr (name : string) (a : list (string * string))
  : option string :=
  match a with
  | [] => None
  | (k, v) :: r => if String.eqb k name then Some v else lookupAttr name r
  end.

(** [el.getAttribute(name)]: [None] is JavaScript's [null]. *)
Definition getAttribute (name : string) (n : node) : option string :=
  lookupAttr name (attributes n).

Fixpoint storeAttr (name value : string) (a : list (string * string))
  : list (string * string) :=
  match a with
  | [] => [(name, value)]
  | (k, v) :: r =>
      if String.eqb k name then (k, value) :: r
      else (k, v) :: storeAttr name value r
  end.

(** [el.setAttribute(name, value)], also what assigning one of the
    reflected properties [img.loading], [img.decoding], [img.sizes]
    does. *)
Definition setAttribute (name value : string) (n : node) : node :=
  match n with
  | Text d => Text d
  | Element t cs a ch => Element t cs (storeAttr name value a) ch
  end.

(** *** Class token lists *)

Definition contains (tok : string) (cs : list string) : bool :=
  existsb (String.eqb tok) cs.

(** [classList.add(tok)]: appended unless already there. *)
Definition tokensAdd (tok : string) (cs : list string) : list string :=
  if contains tok cs then cs else cs ++ [tok].

(** [classList.remove(tok)]. *)
Definition tokensRemove (tok : string) (cs : list string) : list string :=
  filter (fun c => negb (String.eqb tok c)) cs.

Definition classListAdd (tok : string) (n : node) : node :=
  match n with
  | Text d => Text d
  | Element t cs a ch => Element t (tokensAdd tok cs) a ch
  end.

(** *** Selectors

    The selectors of the script applied to markup are type selectors
    ("picture", "img").  [matchIn t n] is the first element in tree
    order among [n] and its descendants with local name [t];
    [querySelector t n] searches the descendants only. *)
Fixpoint matchIn (t : string) (n : node) : option node :=
  match n with
  | Text _ => None
  | Element t' _ _ ch =>
      if String.eqb t' t then Some n
      else (fix first (l : list node) : option node :=
              match l with
              | [] => None
              | c :: r =>
                  match matchIn t c with
                  | Some x => Some x
                  | None => first r
                  end
              end) ch
  end.

Fixpoint matchInForest (t : string) (l : list node) : option node :=
  match l with
  | [] => None
  | c :: r =>
      match matchIn t c with
      | Some x => Some x
      | None => matchInForest t r
      end
  end.

Definition querySelector (t : string) (n : node) : option node :=
  matchInForest t (childNodes n).

(** [root.querySelector(t)?.remove()] on a list of siblings: the first
    match in tree order is taken out with its subtree; [None] when
    nothing matches. *)
Fixpoint removeIn (t : string) (n : node) : option (option node) :=
  match n with
  | Text _ => None
  | Element t' cs a ch =>
      if String.eqb t' t then Some None
      else
        match
          (fix go (l : list node) : option (list node) :=
             match l with
             | [] => None
             | c :: r =>
                 match removeIn t c with
                 | Some None => Some r
                 | Some (Some c') => Some (c' :: r)
                 | None =>
                     match go r with
                     | Some r' => Some (c :: r')
                     | None => None
                     end
                 end
             end) ch
        with
        | Some ch' => Some (Some (Element t' cs a ch'))
        | None => None
        end
  end.

Fixpoint removeInForest (t : string) (l : list node) : option (list node) :=
  match l with
  | [] => None
  | c :: r =>
      match removeIn t c with
      | Some None => Some r
      | Some (Some c') => Some (c' :: r)
      | None =>
          match removeInForest t r with
          | Some r' => Some (c :: r')
          | None => None
          end
      end
  end.

(** [const x = root.querySelector(t); if (x) { x := f x }]: the first
    match in tree order is replaced by [f] of itself (the node is mutated
    in place); the tree is unchanged when nothing matches. *)
Fixpoint updateIn (t : string) (f : node -> node) (n : node) : option node :=
  match n with
  | Text _ => None
  | Element t' cs a ch =>
      if String.eqb t' t then Some (f n)
      else
        match
          (fix go (l : list node) : option (list node) :=
             match l with
             | [] => None
             | c :: r =>
                 match updateIn t f c with
                 | Some c' => Some (c' :: r)
                 | None =>
                     match go r with
                     | Some r' => Some (c :: r')
                     | None => None
                     end
                 end
             end) ch
        with
        | Some ch' => Some (Element t' cs a ch')
        | None => None
        end
  end.

Fixpoint updateInForest (t : string) (f : node -> node) (l : list node)
  : option (list node) :=
  match l with
  | [] => None
  | c :: r =>
      match updateIn t f c with
      | Some c' => Some (c' :: r)
      | None =>
          match updateInForest t f r with
          | Some r' => Some (c :: r')
          | None => None
          end
      end
  end.

Definition updateFirst (t : string) (f : node -> node) (n : node) : node :=
  match n with
  | Text d => Text d
  | Element t' cs a ch =>
      match updateInForest t f ch with
      | Some ch' => Element t' cs a ch'
      | None => n
      end
  end.

(** [n.cloneNode(deep)]: a tree value is its own deep copy; what is done
    to the copy afterwards does not reach the original. *)
Definition cloneNode (deep : bool) (n : node) : node :=
  match n with
  | Text d => Text d
  | Element t cs a ch => Element t cs a (if deep then ch else [])
  end.

(** [n] with the attributes named in [names] dropped, on every element:
    what is left when those attributes are not looked at. *)
Fixpoint withoutAttrs (names : list string) (n : node) : node :=
  match n with
  | Text d => Text d
  | Element t cs a ch =>
      Element t cs
        (filter (fun kv => negb (contains (fst kv) names)) a)
        (map (withoutAttrs names) ch)
  end.

(** The children that [el.textContent = s] leaves. *)
Definition textChildren (s : string) : list node :=
  if String.eqb s "" then [] else [Text s].

End Dom.

(** ** JavaScript numbers

    The script computes with array indices and offsets only: integers,
    on which [%] and [+] are exact, and [NaN], which [x % 0] gives. *)
Module Js.

Inductive num : Type :=
| NaN
| Int (z : Z).

(** [a % b]: the remainder takes the sign of the dividend. *)
Definition rem (a b : num) : num :=
  match a, b with
  | Int x, Int y => if Z.eqb y 0 then NaN else Int (Z.rem x y)
  | _, _ => NaN
  end.

Definition add (a b : num) : num :=
  match a, b with
  | Int x, Int y => Int (x + y)
  | _, _ => NaN
  end.

(** [arr[i]]: [None] is [undefined]. *)
Definition index {A : Type} (arr : list A) (i : num) : option A :=
  match i with
  | NaN => None
  | Int z => if Z.ltb z 0 then None else nth_error arr (Z.to_nat z)
  end.

(** [s || ""] on an optional string: [null] and the empty string are
    falsy. *)
Definition orEmpty (o : option string) : string :=
  match o with
  | Some s => if String.eqb s "" then "" else s
  | None => ""
  end.

End Js.

(** ** The lightbox controller *)
Module Lightbox.
Import Dom.

(** *** The page around the widget *)

(** The elements that can hold keyboard focus.  [PageElement id html] is
    any other element of the page; [html] is false for an element that is
    not an [HTMLElement] (SVG, MathML). *)
Inductive element : Type :=
| Body
| GalleryLink (i : nat)
| CloseButton
| PrevButton
| NextButton
| PageElement (id : nat) (html : bool).

(** [e instanceof HTMLElement]. *)
Definition isHTMLElement (e : element) : bool :=
  match e with
  | PageElement _ html => html
  | _ => true
  end.

(** The overlay subtree that [buildOverlay] makes.  The variables
    [overlay], [dialog], [figure], [caption], [closeButton], [prevButton]
    and [nextButton] are assigned together, there and nowhere else, so one
    optional record stands for all seven.  What changes later is the
    [hidden] flag of the root, the children of the figure before the
    caption, and the text of the caption ([caption.textContent]). *)
Record Overlay : Type := mkOverlay {
  uid : nat;
  hidden : bool;
  figureMedia : list node;
  captionText : string
}.

Definition captionNode (o : Overlay) : node :=
  Element "figcaption" ["lightbox-caption"] [] (textChildren (captionText o)).

Definition figureChildren (o : Overlay) : list node :=
  figureMedia o ++ [captionNode o].

Definition figureNode (o : Overlay) : node :=
  Element "figure" ["lightbox-figure"] [] (figureChildren o).

Definition buttonNode (cls label html : string) : node :=
  Element "button" [cls] [("type", "button"); ("aria-label", label)]
          [Text html].

(** The subtree as the document holds it. *)
Definition overlayNode (o : Overlay) : node :=
  Element "div" ["lightbox-overlay"]
    (if hidden o then [("hidden", "")] else [])
    [Element "div" ["lightbox-dialog"]
       [("role", "dialog"); ("aria-modal", "true");
        ("aria-label", "Foto bekijken")]
       [buttonNode "lightbox-close" "Sluiten" "&times;";
        buttonNode "lightbox-prev" "Vorige foto" "&#x2039;";
        buttonNode "lightbox-next" "Volgende foto" "&#x203A;";
        figureNode o]].

(** The variables of the script and the part of the document it reads
    and writes. *)
Record State : Type := mkState {
  activeIndex : Js.num;
  overlay : option Overlay;
  restoreFocusTo : option element;
  (** [document.body.classList] *)
  bodyClassList : list string;
  (** the overlay roots appended to [document.body], oldest first *)
  bodyOverlays : list nat;
  (** how many elements [document.createElement] has made *)
  elementsCreated : nat;
  (** whether [onKeyDown] is a keydown listener of [document] *)
  keydownListener : bool;
  (** [document.activeElement] *)
  activeElement : option element;
  (** the elements that are in the document and can take focus *)
  present : element -> bool
}.

Definition setActiveIndex (v : Js.num) (s : State) : State :=
  mkState v (overlay s) (restoreFocusTo s) (bodyClassList s) (bodyOverlays s)
          (elementsCreated s) (keydownListener s) (activeElement s) (present s).

Definition setOverlay (v : option Overlay) (s : State) : State :=
  mkState (activeIndex s) v (restoreFocusTo s) (bodyClassList s)
          (bodyOverlays s) (elementsCreated s) (keydownListener s)
          (activeElement s) (present s).

Definition setRestoreFocusTo (v : option element) (s : State) : State :=
  mkState (activeIndex s) (overlay s) v (bodyClassList s) (bodyOverlays s)
          (elementsCreated s) (keydownListener s) (activeElement s) (present s).

Definition setBodyClassList (v : list string) (s : State) : State :=
  mkState (activeIndex s) (overlay s) (restoreFocusTo s) v (bodyOverlays s)
          (elementsCreated s) (keydownListener s) (activeElement s) (present s).

Definition setKeydownListener (v : bool) (s : State) : State :=
  mkState (activeIndex s) (overlay s) (restoreFocusTo s) (bodyClassList s)
          (bodyOverlays s) (elementsCreated s) v (activeElement s) (present s).

Definition setActiveElement (v : option element) (s : State) : State :=
  mkState (activeIndex s) (overlay s) (restoreFocusTo s) (bodyClassList s)
          (bodyOverlays s) (elementsCreated s) (keydownListener s) v
          (present s).

Definition setPresent (v : element -> bool) (s : State) : State :=
  mkState (activeIndex s) (overlay s) (restoreFocusTo s) (bodyClassList s)
          (bodyOverlays s) (elementsCreated s) (keydownListener s)
          (activeElement s) v.

Definition setHidden (v : bool) (o : Overlay) : Overlay :=
  mkOverlay (uid o) v (figureMedia o) (captionText o).

Definition setFigureMedia (v : list node) (o : Overlay) : Overlay :=
  mkOverlay (uid o) (hidden o) v (captionText o).

Definition setCaptionText (v : string) (o : Overlay) : Overlay :=
  mkOverlay (uid o) (hidden o) (figureMedia o) v.

(** *** Statements: state and exceptions

    A function of the script either returns, or throws a [TypeError]
    (a property read on [null]); both leave a state behind. *)
Inductive result (A : Type) : Type :=
| Returns (a : A) (s : State)
| Throws (s : State).
Arguments Returns {A} a s.
Arguments Throws {A} s.

Definition M (A : Type) : Type := State -> result A.

Definition ret {A : Type} (a : A) : M A := fun s => Returns a s.

Definition bind {A B : Type} (c : M A) (k : A -> M B) : M B :=
  fun s =>
    match c s with
    | Returns a s' => k a s'
    | Throws s' => Throws s'
    end.

Definition get : M State := fun s => Returns s s.

Definition modify (f : State -> State) : M unit := fun s => Returns tt (f s).

Definition throwTypeError {A : Type} : M A := fun s => Throws s.

Notation "x <- c ;; k" := (bind c (fun x => k))
  (at level 61, c at next level, right associativity).
Notation "c ;; k" := (bind c (fun _ => k))
  (at level 61, right associativity).

(** The state a call leaves, whether it returned or threw. *)
Definition stateOf {A : Type} (r : result A) : State :=
  match r with
  | Returns _ s => s
  | Throws s => s
  end.

Definition returned {A : Type} (r : result A) : bool :=
  match r with
  | Returns _ _ => true
  | Throws _ => false
  end.

(** [e.focus()]: the focus moves when [e] can take it. *)
Definition focus (e : element) : M unit :=
  modify (fun s => if present s e then setActiveElement (Some e) s else s).

(** *** Events *)

Record MouseEvent : Type := mkMouseEvent {
  defaultPrevented : bool;
  button : Z;
  metaKey : bool;
  ctrlKey : bool;
  shiftKey : bool;
  altKey : bool
}.

(** [event.preventDefault()] on a click. *)
Definition preventDefault (ev : MouseEvent) : MouseEvent :=
  mkMouseEvent true (button ev) (metaKey ev) (ctrlKey ev) (shiftKey ev)
               (altKey ev).

Record KeyboardEvent : Type := mkKeyboardEvent {
  key : string;
  keyDefaultPrevented : bool
}.

Definition keyPreventDefault (ev : KeyboardEvent) : KeyboardEvent :=
  mkKeyboardEvent (key ev) true.

(** Where a click inside the overlay landed: whether [event.target] is an
    [Element], and what [target.closest] finds for the three selectors
    the listener asks about. *)
Record OverlayClick : Type := mkOverlayClick {
  targetIsElement : bool;
  closestMedia : bool;
  closestPrevNext : bool;
  closestClose : bool
}.

(** [document.activeElement instanceof HTMLElement
     ? document.activeElement : null] *)
Definition focusedHTMLElement (s : State) : option element :=
  match activeElement s with
  | Some e => if isHTMLElement e then Some e else None
  | None => None
  end.

(** *** The script *)
Section Script.

(** [galleryLinks]: the thumbnail links of the page, in document order. *)
Variable galleryLinks : list node.

(** What [getItem] returns. *)
Record Item : Type := mkItem {
  link : node;
  picture : option node;
  alt : string
}.

Definition buildOverlay : M unit :=
  modify (fun s =>
    let o := mkOverlay (elementsCreated s) true [] "" in
    mkState (activeIndex s) (Some o) (restoreFocusTo s) (bodyClassList s)
            (bodyOverlays s ++ [uid o]) (elementsCreated s + 7)%nat
            (keydownListener s) (activeElement s) (present s)).

Definition getItem (index : Js.num) : option Item :=
  match Js.index galleryLinks index with
  | None => None
  | Some link =>
      let picture := querySelector "picture" link in
      let img := querySelector "img" link in
      let alt :=
        Js.orEmpty match img with
                   | Some i => getAttribute "alt" i
                   | None => None
                   end in
      Some (mkItem link picture alt)
  end.

(** What is done to the image of the clone. *)
Definition eagerImage (img : node) : node :=
  setAttribute "sizes" "100vw"
    (setAttribute "decoding" "async" (setAttribute "loading" "eager" img)).

(** The clone as it is inserted. *)
Definition prepareClone (picture : node) : node :=
  updateFirst "img" eagerImage
    (classListAdd "lightbox-media" (cloneNode true picture)).

(** [figure.querySelector("picture")?.remove()].  The caption holds text
    only, so the search is among the children before it (see
    [removeInForest_figureChildren]). *)
Definition removePicture (o : Overlay) : Overlay :=
  match removeInForest "picture" (figureMedia o) with
  | Some m => setFigureMedia m o
  | None => o
  end.

Definition setOverlayMedia (item : Item) : M unit :=
  s <- get ;;
  match overlay s with
  | None => throwTypeError
  | Some o =>
      let o1 := removePicture o in
      modify (setOverlay (Some o1)) ;;
      match picture item with
      | None => ret tt
      | Some p =>
          let pictureClone := prepareClone p in
          let o2 := setFigureMedia (figureMedia o1 ++ [pictureClone]) o1 in
          let o3 := setCaptionText (Js.orEmpty (Some (alt item))) o2 in
          modify (setOverlay (Some o3))
      end
  end.

(** [galleryLinks.length] *)
Definition galleryLength : Z := Z.of_nat (List.length galleryLinks).

Definition itemCount : Js.num := Js.Int galleryLength.

Definition normalize (index : Js.num) : Js.num :=
  Js.rem (Js.add (Js.rem index itemCount) itemCount) itemCount.

Definition showAt (index : Js.num) : M unit :=
  let normalized := normalize index in
  match getItem normalized with
  | None => ret tt
  | Some item =>
      modify (setActiveIndex normalized) ;;
      setOverlayMedia item
  end.

Definition showByOffset (offset : Js.num) : M unit :=
  s <- get ;;
  showAt (Js.add (activeIndex s) offset).

Definition closeLightbox : M unit :=
  s <- get ;;
  match overlay s with
  | None => ret tt
  | Some o =>
      modify (setOverlay (Some (setHidden true o))) ;;
      modify (fun s => setBodyClassList
                         (tokensRemove "lightbox-open" (bodyClassList s)) s) ;;
      modify (setKeydownListener false) ;;
      match restoreFocusTo s with
      | Some e => focus e
      | None => ret tt
      end ;;
      modify (setRestoreFocusTo None)
  end.

Definition onKeyDown (event : KeyboardEvent) : M KeyboardEvent :=
  s <- get ;;
  if match overlay s with Some o => hidden o | None => false end
  then ret event
  else if String.eqb (key event) "Escape" then
    let event := keyPreventDefault event in
    closeLightbox ;; ret event
  else if String.eqb (key event) "ArrowLeft" then
    let event := keyPreventDefault event in
    showByOffset (Js.Int (-1)) ;; ret event
  else if String.eqb (key event) "ArrowRight" then
    let event := keyPreventDefault event in
    showByOffset (Js.Int 1) ;; ret event
  else ret event.

Definition openLightbox (index : Js.num) : M unit :=
  s <- get ;;
  match overlay s with
  | None => buildOverlay
  | Some _ => ret tt
  end ;;
  modify (fun s => setRestoreFocusTo (focusedHTMLElement s) s) ;;
  modify (fun s => setBodyClassList
                     (tokensAdd "lightbox-open" (bodyClassList s)) s) ;;
  s <- get ;;
  match overlay s with
  | None => throwTypeError
  | Some o => modify (setOverlay (Some (setHidden false o)))
  end ;;
  showAt index ;;
  modify (setKeydownListener true) ;;
  s <- get ;;
  match overlay s with
  | None => ret tt
  | Some _ => focus CloseButton
  end.

(** The click listener of the overlay. *)
Definition onOverlayClick (event : OverlayClick) : M unit :=
  if negb (targetIsElement event) then ret tt
  else if closestMedia event then ret tt
  else if closestPrevNext event then ret tt
  else if closestClose event then ret tt
  else closeLightbox.

(** The click listener of thumbnail [index]; the event comes back as the
    listener leaves it. *)
Definition onLinkClick (index : nat) (event : MouseEvent) : M MouseEvent :=
  if defaultPrevented event
     || negb (Z.eqb (button event) 0)
     || metaKey event
     || ctrlKey event
     || shiftKey event
     || altKey event
  then ret event
  else
    let event := preventDefault event in
    openLightbox (Js.Int (Z.of_nat index)) ;;
    ret event.

End Script.

(** The state in which [openLightbox] calls [showAt]: the overlay is
    there and revealed, the focus recorded, the body marked. *)
Definition revealed (s : State) : State :=
  match overlay s with
  | Some o =>
      mkState (activeIndex s) (Some (setHidden false o))
              (focusedHTMLElement s)
              (tokensAdd "lightbox-open" (bodyClassList s))
              (bodyOverlays s) (elementsCreated s) (keydownListener s)
              (activeElement s) (present s)
  | None =>
      mkState (activeIndex s)
              (Some (mkOverlay (elementsCreated s) false [] ""))
              (focusedHTMLElement s)
              (tokensAdd "lightbox-open" (bodyClassList s))
              (bodyOverlays s ++ [elementsCreated s])
              (elementsCreated s + 7)%nat (keydownListener s)
              (activeElement s) (present s)
  end.

(** The last two statements of [openLightbox]. *)
Definition listening (s : State) : State :=
  let s := setKeydownListener true s in
  if present s CloseButton then setActiveElement (Some CloseButton) s else s.

(** [s'] differs from [s] in the active index and the overlay at most. *)
Definition sameOutside (s s' : State) : Prop :=
  restoreFocusTo s' = restoreFocusTo s /\
  bodyClassList s' = bodyClassList s /\
  bodyOverlays s' = bodyOverlays s /\
  elementsCreated s' = elementsCreated s /\
  keydownListener s' = keydownListener s /\
  activeElement s' = activeElement s /\
  present s' = present s.

(** *** Runs of the widget *)

(** What can happen to the widget: the four operations, the listeners
    that reach them, and what the user does to the focus meanwhile. *)
Inductive op : Type :=
| Activate (index : Js.num)
| DisplayItem (index : Js.num)
| Navigate (offset : Js.num)
| Deactivate
| LinkClick (index : nat) (event : MouseEvent)
| OverlayClicked (event : OverlayClick)
| CloseClick
| PrevClick
| NextClick
| KeyDown (event : KeyboardEvent)
| UserFocus (e : option element)
| PresenceChange (p : element -> bool).

Section Runs.

Variable galleryLinks : list node.

(** The state that handling [o] leaves; a listener that throws leaves
    the state of the throw.  Every listener may be called in every state,
    also those that the script has not registered yet: a run of the page
    is a run here. *)
Definition exec (o : op) (s : State) : State :=
  match o with
  | Activate i => stateOf (openLightbox galleryLinks i s)
  | DisplayItem i => stateOf (showAt galleryLinks i s)
  | Navigate d => stateOf (showByOffset galleryLinks d s)
  | Deactivate => stateOf (closeLightbox s)
  | LinkClick i ev => stateOf (onLinkClick galleryLinks i ev s)
  | OverlayClicked ev => stateOf (onOverlayClick ev s)
  | CloseClick => stateOf (closeLightbox s)
  | PrevClick => stateOf (showByOffset galleryLinks (Js.Int (-1)) s)
  | NextClick => stateOf (showByOffset galleryLinks (Js.Int 1) s)
  | KeyDown ev => stateOf (onKeyDown galleryLinks ev s)
  | UserFocus e => setActiveElement e s
  | PresenceChange p => setPresent p s
  end.

Definition run (ops : list op) (s : State) : State :=
  fold_left (fun s o => exec o s) ops s.

(** The state when the script has run: the page gives the classes of the
    body, the focused element and the elements that can take focus. *)
Definition initial (classes : list string) (focused : option element)
  (pres : element -> bool) : State :=
  mkState (Js.Int 0) None None classes [] 0%nat false focused pres.

(** The script installs nothing on a page without thumbnails. *)
Definition install (classes : list string) (focused : option element)
  (pres : element -> bool) : option State :=
  if Nat.eqb (List.length galleryLinks) 0 then None
  else Some (initial classes focused pres).

Inductive reachable : State -> Prop :=
| reachable_initial : forall classes focused pres,
    reachable (initial classes focused pres)
| reachable_exec : forall s o, reachable s -> reachable (exec o s).

End Runs.

(** The attributes that [setOverlayMedia] sets on the image of a clone. *)
Definition loadingAttrs : list string := ["loading"; "decoding"; "sizes"].

(** The children of the figure that are pictures: the media nodes. *)
Definition mediaNodes (o : Overlay) : list node :=
  filter (hasTag "picture") (childNodes (figureNode o)).

(** The figure holds the caption alone, or one marked picture before
    it. *)
Definition mediaOk (o : Overlay) : Prop :=
  figureMedia o = [] \/
  exists m, figureMedia o = [m] /\ hasTag "picture" m = true /\
            contains "lightbox-media" (classList m) = true.

(** What holds of the overlay in every state of a run. *)
Definition overlayOk (s : State) : Prop :=
  match overlay s with
  | None => bodyOverlays s = [] /\ restoreFocusTo s = None
  | Some o =>
      mediaOk o /\ bodyOverlays s = [uid o] /\
      (hidden o = true ->
       restoreFocusTo s = None /\
       contains "lightbox-open" (bodyClassList s) = false /\
       keydownListener s = false)
  end.

(** The active index is an index of the gallery (0 on the page where the
    script installs nothing). *)
Definition indexOk (links : list node) (s : State) : Prop :=
  exists k, activeIndex s = Js.Int k /\
            (k = 0 \/ 0 <= k < galleryLength links).

Definition invariant (links : list node) (s : State) : Prop :=
  indexOk links s /\ overlayOk s.

(** What happens between an Activate and the Deactivate that follows:
    whatever neither activates nor closes. *)
Definition keepsOpen (o : op) : bool :=
  match o with
  | DisplayItem _ | Navigate _ | PrevClick | NextClick
  | UserFocus _ | PresenceChange _ => true
  | KeyDown ev => negb (String.eqb (key ev) "Escape")
  | Activate _ | Deactivate | LinkClick _ _ | OverlayClicked _
  | CloseClick => false
  end.

(** A call returned with the overlay showing picture [pic] of item [i]
    under caption [caption]: the figure holds the prepared clone and the
    caption, and nothing else. *)
Definition shows (i : Z) (pic : node) (caption : string) (r : result unit)
  : Prop :=
  exists s' o,
    r = Returns tt s' /\ overlay s' = Some o /\
    activeIndex s' = Js.Int i /\
    figureChildren o = [prepareClone pic; captionNode o] /\
    mediaNodes o = [prepareClone pic] /\
    captionText o = caption.

(** The overlay shows the active item: its figure holds the clone of the
    picture of that item under the alt text of the item, and no media
    node when the item has no picture. *)
Definition showsActive (links : list node) (s : State) : Prop :=
  forall o item,
    overlay s = Some o -> getItem links (activeIndex s) = Some item ->
    match picture item with
    | Some p => figureMedia o = [prepareClone p] /\ captionText o = alt item
    | None => figureMedia o = []
    end.

(** [openLightbox] is called by the click listeners only, with the
    position of a thumbnail: never with [NaN]. *)
Definition activatesAtIndex (o : op) : bool :=
  match o with
  | Activate Js.NaN => false
  | _ => true
  end.

(** The overlay is revealed exactly while the page is marked and the key
    listener registered; there is no listener before there is an
    overlay. *)
Definition openOk (s : State) : Prop :=
  match overlay s with
  | None => keydownListener s = false
  | Some o =>
      hidden o = false ->
      keydownListener s = true /\
      contains "lightbox-open" (bodyClassList s) = true
  end.


End Lightbox.

(** ** Sample pages *)
Module Samples.
Import Dom Lightbox.

Definition source (srcset type : string) : node :=
  Element "source" [] [("srcset", srcset); ("type", type)] [].

Definition pictureA : node :=
  Element "picture" []  []
    [source "a-640.avif 640w, a-1600.avif 1600w" "image/avif";
     source "a-640.webp 640w, a-1600.webp 1600w" "image/webp";
     Element "img" []
       [("src", "a-960.jpg"); ("alt", "Knippen"); ("loading", "lazy");
        ("sizes", "33vw")] []].

Definition linkA : node :=
  Element "a" ["gallery-item"] [("href", "a.jpg")] [pictureA].

(** A thumbnail whose image has no alt text. *)
Definition pictureB : node :=
  Element "picture" [] []
    [source "b-640.avif 640w" "image/avif";
     Element "img" [] [("src", "b-960.jpg")] []].

Definition linkB : node :=
  Element "a" ["gallery-item"] [("href", "b.jpg")] [pictureB].

(** A thumbnail that is a bare image, without a picture element. *)
Definition linkC : node :=
  Element "a" ["gallery-item"] [("href", "c.jpg")]
    [Element "img" [] [("src", "c.jpg"); ("alt", "Kleuren")] []].

Definition gallery : list node := [linkA; linkB; linkC].

Definition everything (e : element) : bool := true.

(** The page with the focus on the first thumbnail. *)
Definition page : State := initial [] (Some (GalleryLink 0)) everything.

(** A plain click and a click with the ctrl key held. *)
Definition plainClick : MouseEvent :=
  mkMouseEvent false 0 false false false false.

Definition ctrlClick : MouseEvent :=
  mkMouseEvent false 0 false true false false.

(** The page after a click on the first thumbnail. *)
Definition opened : State := exec gallery (Activate (Js.Int 0)) page.

(** What [getItem] gives for the first and the third thumbnail. *)
Definition itemA : Item := mkItem linkA (Some pictureA) "Knippen".

Definition itemC : Item := mkItem linkC None "Kleuren".

(** The overlay of [opened]. *)
Definition openedOverlay : Overlay :=
  mkOverlay 0 false [prepareClone pictureA] "Knippen".

(** The page after the lightbox was opened and closed again. *)
Definition closedAgain : State :=
  run gallery [Activate (Js.Int 0); Deactivate] page.

(** The page with the focus on an SVG element that takes focus. *)
Definition svgFocused : State :=
  initial [] (Some (PageElement 0 false)) everything.

(** That page after the lightbox was opened and closed. *)
Definition svgClosed : State :=
  run gallery [Activate (Js.Int 0); Deactivate] svgFocused.

(** The image of the first thumbnail, and what [getItem] gives for the
    second thumbnail. *)
Definition imageA : node :=
  Element "img" []
    [("src", "a-960.jpg"); ("alt", "Knippen"); ("loading", "lazy");
     ("sizes", "33vw")] [].

Definition itemB : Item := mkItem linkB (Some pictureB) "".

(** A page whose body has classes of its own. *)
Definition styledPage : State :=
  initial ["home"; "has-gallery"] (Some (GalleryLink 0)) everything.

(** The Escape key, and clicks on the backdrop and on the picture. *)
Definition escapeKey : KeyboardEvent := mkKeyboardEvent "Escape" false.

Definition backdropClick : OverlayClick :=
  mkOverlayClick true false false false.

Definition pictureClick : OverlayClick :=
  mkOverlayClick true true false false.


End Samples.

(** ** Facts about DOM trees *)
Module DomFacts.
Import Dom.

Lemma matchIn_hasTag (t : string) (n x : node) :
  matchIn t n = Some x -> hasTag t x = true.
Proof.
  revert x. induction n as [d | t' cs a ch IH] using node_ind'; intros x H.
  - discriminate.
  - cbn in H. destruct (String.eqb t' t) eqn:E.
    + injection H as <-. cbn. exact E.
    + induction IH as [| c r Hc _ IHr]; [discriminate |].
      destruct (matchIn t c) eqn:Ec.
      * injection H as <-. now apply Hc.
      * now apply IHr.
Qed.

Lemma matchInForest_hasTag (t : string) (l : list node) (x : node) :
  matchInForest t l = Some x -> hasTag t x = true.
Proof.
  induction l as [| c r IH]; cbn; [discriminate |].
  destruct (matchIn t c) eqn:Ec.
  - intros [= <-]. eapply matchIn_hasTag; eauto.
  - exact IH.
Qed.

Lemma querySelector_hasTag (t : string) (n x : node) :
  querySelector t n = Some x -> hasTag t x = true.
Proof. apply matchInForest_hasTag. Qed.

Lemma removeIn_hasTag (t : string) (n : node) :
  hasTag t n = true -> removeIn t n = Some None.
Proof.
  destruct n as [d | t' cs a ch]; cbn; [discriminate |].
  now intros ->.
Qed.

Lemma removeInForest_head (t : string) (n : node) (r : list node) :
  hasTag t n = true -> removeInForest t (n :: r) = Some r.
Proof. intros H. cbn. now rewrite removeIn_hasTag. Qed.

Lemma removeInForest_app (t : string) (a b : list node) :
  removeInForest t (a ++ b)%list =
  match removeInForest t a with
  | Some a' => Some (a' ++ b)%list
  | None => option_map (app a) (removeInForest t b)
  end.
Proof.
  induction a as [| c r IH]; cbn.
  - now destruct (removeInForest t b).
  - destruct (removeIn t c) as [[c' |] |]; try reflexivity.
    rewrite IH. destruct (removeInForest t r); [reflexivity |].
    now destruct (removeInForest t b).
Qed.

Lemma hasTag_classListAdd (t tok : string) (n : node) :
  hasTag t (classListAdd tok n) = hasTag t n.
Proof. now destruct n. Qed.

Lemma hasTag_cloneNode (t : string) (deep : bool) (n : node) :
  hasTag t (cloneNode deep n) = hasTag t n.
Proof. now destruct n. Qed.

Lemma hasTag_updateFirst (t u : string) (f : node -> node) (n : node) :
  hasTag t (updateFirst u f n) = hasTag t n.
Proof.
  destruct n as [d | t' cs a ch]; cbn; [reflexivity |].
  now destruct (updateInForest u f ch).
Qed.

Lemma classList_updateFirst (u : string) (f : node -> node) (n : node) :
  classList (updateFirst u f n) = classList n.
Proof.
  destruct n as [d | t' cs a ch]; cbn; [reflexivity |].
  now destruct (updateInForest u f ch).
Qed.

Lemma cloneNode_deep (n : node) : cloneNode true n = n.
Proof. now destruct n. Qed.

Lemma contains_tokensAdd (tok : string) (cs : list string) :
  contains tok (tokensAdd tok cs) = true.
Proof.
  unfold tokensAdd. destruct (contains tok cs) eqn:E; [exact E |].
  unfold contains. rewrite existsb_app. cbn.
  rewrite String.eqb_refl. apply orb_true_iff. right. reflexivity.
Qed.

Lemma contains_tokensRemove (tok : string) (cs : list string) :
  contains tok (tokensRemove tok cs) = false.
Proof.
  unfold contains, tokensRemove. induction cs as [| c r IH]; cbn.
  - reflexivity.
  - destruct (String.eqb tok c) eqn:E; cbn; [exact IH |].
    now rewrite E.
Qed.

Lemma tokensRemove_absent (tok : string) (cs : list string) :
  contains tok cs = false -> tokensRemove tok cs = cs.
Proof.
  unfold contains, tokensRemove. induction cs as [| c r IH]; cbn.
  - reflexivity.
  - intros H. apply orb_false_iff in H as [E Hr].
    rewrite E. cbn. now rewrite IH.
Qed.

Lemma orEmpty_Some (s : string) : Js.orEmpty (Some s) = s.
Proof.
  cbn. destruct (String.eqb_spec s ""); congruence.
Qed.

(** *** Setting attributes that [withoutAttrs] drops *)

Lemma filter_storeAttr (names : list string) (name value : string)
  (a : list (string * string)) :
  contains name names = true ->
  filter (fun kv => negb (contains (fst kv) names)) (storeAttr name value a) =
  filter (fun kv => negb (contains (fst kv) names)) a.
Proof.
  intros Hn. induction a as [| [k v] r IH]; cbn.
  - now rewrite Hn.
  - destruct (String.eqb_spec k name) as [-> | Hk]; cbn.
    + now rewrite Hn.
    + now rewrite IH.
Qed.

Lemma withoutAttrs_setAttribute (names : list string) (name value : string)
  (n : node) :
  contains name names = true ->
  withoutAttrs names (setAttribute name value n) = withoutAttrs names n.
Proof.
  intros Hn. destruct n as [d | t cs a ch]; cbn; [reflexivity |].
  now rewrite filter_storeAttr.
Qed.

Lemma withoutAttrs_updateIn (names : list string) (t : string)
  (f : node -> node) (n n' : node) :
  (forall x, withoutAttrs names (f x) = withoutAttrs names x) ->
  updateIn t f n = Some n' -> withoutAttrs names n' = withoutAttrs names n.
Proof.
  intros Hf. revert n'.
  induction n as [d | t' cs a ch IH] using node_ind'; intros n' H.
  - discriminate.
  - cbn in H. destruct (String.eqb t' t).
    + injection H as <-. apply Hf.
    + match type of H with
      | match ?g ch with _ => _ end = _ => destruct (g ch) as [ch' |] eqn:E
      end; [| discriminate].
      injection H as <-. cbn. f_equal.
      revert ch' E. induction IH as [| c r Hc _ IHr]; intros ch' E;
        [discriminate |].
      destruct (updateIn t f c) as [c' |] eqn:Ec.
      * injection E as <-. cbn. f_equal. now apply Hc.
      * match type of E with
        | match ?g r with _ => _ end = _ => destruct (g r) as [r' |] eqn:Er
        end; [| discriminate].
        injection E as <-. cbn. f_equal. now apply IHr.
Qed.

Lemma withoutAttrs_updateInForest (names : list string) (t : string)
  (f : node -> node) (l l' : list node) :
  (forall x, withoutAttrs names (f x) = withoutAttrs names x) ->
  updateInForest t f l = Some l' ->
  map (withoutAttrs names) l' = map (withoutAttrs names) l.
Proof.
  intros Hf. revert l'. induction l as [| c r IH]; intros l' H; cbn in H.
  - discriminate.
  - destruct (updateIn t f c) as [c' |] eqn:Ec.
    + injection H as <-. cbn. f_equal.
      eapply withoutAttrs_updateIn; eauto.
    + destruct (updateInForest t f r) as [r' |]; [| discriminate].
      injection H as <-. cbn. f_equal. now apply IH.
Qed.

Lemma withoutAttrs_updateFirst (names : list string) (t : string)
  (f : node -> node) (n : node) :
  (forall x, withoutAttrs names (f x) = withoutAttrs names x) ->
  withoutAttrs names (updateFirst t f n) = withoutAttrs names n.
Proof.
  intros Hf. destruct n as [d | t' cs a ch]; cbn; [reflexivity |].
  destruct (updateInForest t f ch) as [ch' |] eqn:E; [| reflexivity].
  cbn. f_equal. eapply withoutAttrs_updateInForest; eauto.
Qed.

(** What [updateFirst] replaces is what [querySelector] finds. *)
Lemma updateIn_matchIn (t : string) (f : node -> node) (n : node) :
  match matchIn t n with
  | Some _ => updateIn t f n <> None
  | None => updateIn t f n = None
  end.
Proof.
  induction n as [d | t' cs a ch IH] using node_ind'; cbn.
  - reflexivity.
  - destruct (String.eqb t' t); [discriminate |].
    induction IH as [| c r Hc _ IHr]; [reflexivity |].
    destruct (matchIn t c).
    + destruct (updateIn t f c); [discriminate | congruence].
    + rewrite Hc.
      match goal with
      | |- match ?m with _ => _ end =>
          destruct m; match goal with
                      | H : match ?g r with _ => _ end <> None |- _ =>
                          destruct (g r); [discriminate | congruence]
                      | H : match ?g r with _ => _ end = None |- _ =>
                          destruct (g r); [discriminate | reflexivity]
                      end
      end.
Qed.

Lemma matchIn_updateIn (t : string) (f : node -> node) (n : node) :
  (forall x, hasTag t (f x) = hasTag t x) ->
  match updateIn t f n with
  | Some n' => matchIn t n' = option_map f (matchIn t n)
  | None => matchIn t n = None
  end.
Proof.
  intros Hf. induction n as [d | t' cs a ch IH] using node_ind'; cbn.
  - reflexivity.
  - destruct (String.eqb t' t) eqn:Et.
    + cbn. specialize (Hf (Element t' cs a ch)). cbn in Hf. rewrite Et in Hf.
      destruct (f (Element t' cs a ch)) as [d | t2 cs2 a2 ch2]; cbn in *;
        [discriminate |].
      now rewrite Hf.
    + induction IH as [| c r Hc _ IHr]; [reflexivity |].
      destruct (updateIn t f c) as [c' |] eqn:Ec.
      * cbn. rewrite Et, Hc.
        pose proof (updateIn_matchIn t f c) as Hm.
        destruct (matchIn t c); [reflexivity | congruence].
      * rewrite Hc.
        match goal with
        | H : match match ?g r with _ => _ end with _ => _ end |- _ =>
            destruct (g r) as [r' |] eqn:Er
        end.
        -- cbn in *. rewrite Et in *. rewrite Hc. exact IHr.
        -- exact IHr.
Qed.

Lemma matchInForest_updateInForest (t : string) (f : node -> node)
  (l : list node) :
  (forall x, hasTag t (f x) = hasTag t x) ->
  match updateInForest t f l with
  | Some l' => matchInForest t l' = option_map f (matchInForest t l)
  | None => matchInForest t l = None
  end.
Proof.
  intros Hf. induction l as [| c r IH]; cbn; [reflexivity |].
  pose proof (matchIn_updateIn t f c Hf) as Hc.
  destruct (updateIn t f c) as [c' |] eqn:Ec.
  - cbn. rewrite Hc. pose proof (updateIn_matchIn t f c) as Hm.
    destruct (matchIn t c); [reflexivity | congruence].
  - rewrite Hc. destruct (updateInForest t f r) as [r' |]; cbn.
    + now rewrite Hc.
    + exact IH.
Qed.

Lemma querySelector_updateFirst (t : string) (f : node -> node) (n : node) :
  (forall x, hasTag t (f x) = hasTag t x) ->
  querySelector t (updateFirst t f n) = option_map f (querySelector t n).
Proof.
  intros Hf. destruct n as [d | t' cs a ch]; [reflexivity |].
  unfold querySelector. cbn.
  pose proof (matchInForest_updateInForest t f ch Hf) as H.
  destruct (updateInForest t f ch) as [ch' |]; cbn.
  - exact H.
  - now rewrite H.
Qed.

Lemma lookupAttr_storeAttr (name value : string) (a : list (string * string)) :
  lookupAttr name (storeAttr name value a) = Some value.
Proof.
  induction a as [| [k v] r IH]; cbn.
  - now rewrite String.eqb_refl.
  - destruct (String.eqb k name) eqn:E; cbn; now rewrite E.
Qed.

Lemma lookupAttr_storeAttr_other (name other value : string)
  (a : list (string * string)) :
  other <> name ->
  lookupAttr name (storeAttr other value a) = lookupAttr name a.
Proof.
  intros Hne. induction a as [| [k v] r IH]; cbn.
  - destruct (String.eqb_spec other name); congruence.
  - destruct (String.eqb_spec k other) as [-> | Hk]; cbn.
    + destruct (String.eqb_spec other name); congruence.
    + now rewrite IH.
Qed.

Lemma updateInForest_none (t : string) (f : node -> node) (l : list node) :
  matchInForest t l = None -> updateInForest t f l = None.
Proof.
  induction l as [| c r IH]; cbn; [reflexivity |].
  pose proof (updateIn_matchIn t f c) as Hc.
  destruct (matchIn t c); [discriminate |].
  intros H. now rewrite Hc, IH.
Qed.

Lemma updateFirst_none (t : string) (f : node -> node) (n : node) :
  querySelector t n = None -> updateFirst t f n = n.
Proof.
  destruct n as [d | t' cs a ch]; [reflexivity |].
  unfold querySelector. cbn. intros H.
  now rewrite updateInForest_none.
Qed.

Lemma hasTag_Element (t : string) (n : node) :
  hasTag t n = true ->
  exists t' cs a ch, n = Element t' cs a ch.
Proof.
  destruct n as [d | t' cs a ch]; [discriminate | eauto].
Qed.

Lemma tokensRemove_tokensAdd (tok : string) (cs : list string) :
  tokensRemove tok (tokensAdd tok cs) = tokensRemove tok cs.
Proof.
  unfold tokensAdd. destruct (contains tok cs); [reflexivity |].
  unfold tokensRemove. rewrite filter_app. cbn.
  rewrite String.eqb_refl. cbn. apply app_nil_r.
Qed.

Lemma tokensRemove_idempotent (tok : string) (cs : list string) :
  tokensRemove tok (tokensRemove tok cs) = tokensRemove tok cs.
Proof.
  apply tokensRemove_absent, contains_tokensRemove.
Qed.

End DomFacts.

(** ** Facts about the controller *)
Module LightboxFacts.
Import Dom Js Lightbox DomFacts.

#[local] Arguments String.eqb : simpl never.
#[local] Arguments contains : simpl never.
#[local] Arguments tokensAdd : simpl never.
#[local] Arguments tokensRemove : simpl never.
#[local] Arguments orEmpty : simpl never.

(** Unfolds the statements of the script down to states. *)
Ltac run_script :=
  unfold onLinkClick, onOverlayClick, onKeyDown, openLightbox, closeLightbox,
    showByOffset, showAt, setOverlayMedia, buildOverlay, focus,
    throwTypeError, bind, get, modify, ret in *;
  cbn [stateOf returned] in *.

Section Facts.

Variable galleryLinks : list node.

(** *** Index arithmetic *)

Lemma galleryLength_pos :
  galleryLinks <> [] -> 0 < galleryLength galleryLinks.
Proof.
  unfold galleryLength. destruct galleryLinks; [congruence | cbn; lia].
Qed.

Lemma rem_wrap (i m : Z) : 0 < m -> Z.rem (Z.rem i m + m) m = i mod m.
Proof.
  intros Hm.
  assert (Hb : - m < Z.rem i m < m).
  { destruct (Z_le_gt_dec 0 i) as [Hi | Hi].
    - pose proof (Z.rem_bound_pos i m Hi Hm). lia.
    - pose proof (Z.rem_bound_pos (- i) m ltac:(lia) Hm) as Hr.
      rewrite Z.rem_opp_l' in Hr. lia. }
  rewrite Z.rem_mod_nonneg by lia.
  pose proof (Z.quot_rem' i m) as Hi.
  replace (Z.rem i m + m) with (Z.rem i m + 1 * m) by lia.
  rewrite Z.mod_add by lia.
  rewrite Hi at 2.
  rewrite Z.add_comm, Z.mul_comm, Z.mod_add by lia.
  reflexivity.
Qed.

Lemma normalize_Int (i : Z) :
  galleryLinks <> [] ->
  normalize galleryLinks (Int i) = Int (i mod galleryLength galleryLinks).
Proof.
  intros Hne. pose proof (galleryLength_pos Hne) as Hn.
  unfold normalize, itemCount. cbn.
  destruct (Z.eqb_spec (galleryLength galleryLinks) 0); [lia |]. cbn.
  destruct (Z.eqb_spec (galleryLength galleryLinks) 0); [lia |].
  f_equal. now apply rem_wrap.
Qed.

Lemma normalize_empty (i : num) :
  galleryLinks = [] -> normalize galleryLinks i = NaN.
Proof.
  intros ->. unfold normalize, itemCount, galleryLength. cbn. now destruct i.
Qed.

Lemma normalize_NaN : normalize galleryLinks NaN = NaN.
Proof. reflexivity. Qed.

Lemma getItem_NaN : getItem galleryLinks NaN = None.
Proof. reflexivity. Qed.

Lemma getItem_Int (k : Z) :
  0 <= k < galleryLength galleryLinks ->
  exists lnk,
    nth_error galleryLinks (Z.to_nat k) = Some lnk /\
    getItem galleryLinks (Int k) =
    Some (mkItem lnk (querySelector "picture" lnk)
            (orEmpty match querySelector "img" lnk with
                     | Some i => getAttribute "alt" i
                     | None => None
                     end)).
Proof.
  intros Hk. unfold getItem, index.
  destruct (Z.ltb_spec k 0); [lia |].
  destruct (nth_error galleryLinks (Z.to_nat k)) as [lnk |] eqn:E.
  - exists lnk. split; reflexivity.
  - apply nth_error_None in E. unfold galleryLength in Hk. lia.
Qed.

Lemma getItem_normalize (i : Z) :
  galleryLinks <> [] ->
  exists item,
    getItem galleryLinks (normalize galleryLinks (Int i)) = Some item.
Proof.
  intros Hne. rewrite normalize_Int by assumption.
  pose proof (galleryLength_pos Hne) as Hn.
  destruct (getItem_Int (i mod galleryLength galleryLinks)) as (lnk & _ & ->).
  - apply Z.mod_pos_bound. lia.
  - eauto.
Qed.

(** *** What the statements compute *)

Lemma removePicture_ok (o : Overlay) :
  mediaOk o -> figureMedia (removePicture o) = [].
Proof.
  unfold removePicture. intros [E | (m & E & Hm & _)]; rewrite E.
  - cbn. exact E.
  - now rewrite removeInForest_head.
Qed.

Lemma removePicture_fields (o : Overlay) :
  uid (removePicture o) = uid o /\
  hidden (removePicture o) = hidden o /\
  captionText (removePicture o) = captionText o.
Proof.
  unfold removePicture. now destruct (removeInForest "picture" (figureMedia o)).
Qed.

Lemma prepareClone_picture (p : node) :
  hasTag "picture" p = true -> hasTag "picture" (prepareClone p) = true.
Proof.
  intros H. unfold prepareClone.
  now rewrite hasTag_updateFirst, hasTag_classListAdd, hasTag_cloneNode.
Qed.

Lemma prepareClone_marked (p : node) :
  hasTag "picture" p = true ->
  contains "lightbox-media" (classList (prepareClone p)) = true.
Proof.
  intros H. unfold prepareClone. rewrite classList_updateFirst.
  destruct p as [d | t cs a ch]; [discriminate |].
  cbn [classList classListAdd cloneNode]. apply contains_tokensAdd.
Qed.

Lemma setOverlayMedia_picture (item : Item) (p : node) (o : Overlay)
  (s : State) :
  overlay s = Some o -> picture item = Some p ->
  setOverlayMedia item s =
  Returns tt
    (setOverlay
       (Some (setCaptionText (alt item)
                (setFigureMedia
                   (figureMedia (removePicture o) ++ [prepareClone p])
                   (removePicture o)))) s).
Proof.
  intros Ho Hp. run_script. rewrite Ho, Hp, orEmpty_Some. reflexivity.
Qed.

Lemma setOverlayMedia_no_picture (item : Item) (o : Overlay) (s : State) :
  overlay s = Some o -> picture item = None ->
  setOverlayMedia item s = Returns tt (setOverlay (Some (removePicture o)) s).
Proof.
  intros Ho Hp. run_script. now rewrite Ho, Hp.
Qed.

Lemma setOverlayMedia_no_overlay (item : Item) (s : State) :
  overlay s = None -> setOverlayMedia item s = Throws s.
Proof.
  intros Ho. run_script. now rewrite Ho.
Qed.

Lemma showAt_item (i : num) (item : Item) (s : State) :
  getItem galleryLinks (normalize galleryLinks i) = Some item ->
  showAt galleryLinks i s =
  setOverlayMedia item (setActiveIndex (normalize galleryLinks i) s).
Proof.
  intros H. unfold showAt. rewrite H. reflexivity.
Qed.

Lemma showAt_no_item (i : num) (s : State) :
  getItem galleryLinks (normalize galleryLinks i) = None ->
  showAt galleryLinks i s = Returns tt s.
Proof.
  intros H. unfold showAt. now rewrite H.
Qed.

Lemma getItem_Some_Int (i : num) (item : Item) :
  getItem galleryLinks i = Some item ->
  exists k, i = Int k /\ 0 <= k < galleryLength galleryLinks /\
            nth_error galleryLinks (Z.to_nat k) = Some (link item) /\
            picture item = querySelector "picture" (link item).
Proof.
  unfold getItem, index. destruct i as [| k]; [discriminate |].
  destruct (Z.ltb_spec k 0); [discriminate |].
  destruct (nth_error galleryLinks (Z.to_nat k)) as [lnk |] eqn:E;
    [| discriminate].
  intros [= <-]. exists k. cbn. repeat split; try assumption.
  unfold galleryLength.
  assert (Z.to_nat k < List.length galleryLinks)%nat
    by (apply nth_error_Some; congruence).
  lia.
Qed.

Lemma getItem_picture_hasTag (i : num) (item : Item) (p : node) :
  getItem galleryLinks i = Some item -> picture item = Some p ->
  hasTag "picture" p = true.
Proof.
  intros H Hp. apply getItem_Some_Int in H as (k & _ & _ & _ & E).
  rewrite E in Hp. eapply querySelector_hasTag; eauto.
Qed.

(** *** The invariant of a run *)

Lemma overlayOk_display (s : State) (o o' : Overlay) (v : num) :
  overlay s = Some o -> overlayOk s -> mediaOk o' ->
  uid o' = uid o -> hidden o' = hidden o ->
  overlayOk (setOverlay (Some o') (setActiveIndex v s)).
Proof.
  unfold overlayOk. intros Ho Hs Hm Hu Hh. rewrite Ho in Hs. cbn.
  destruct Hs as (_ & Hb & Hc). rewrite Hu, Hh. auto.
Qed.

Lemma overlayOk_setActiveIndex (s : State) (v : num) :
  overlayOk s -> overlayOk (setActiveIndex v s).
Proof. unfold overlayOk. cbn. auto. Qed.

Lemma showAt_overlayOk (i : num) (s : State) :
  overlayOk s -> overlayOk (stateOf (showAt galleryLinks i s)).
Proof.
  intros Hs.
  destruct (getItem galleryLinks (normalize galleryLinks i)) as [item |] eqn:Hi.
  - rewrite (showAt_item _ _ s Hi).
    destruct (overlay s) as [o |] eqn:Ho.
    + pose proof (removePicture_fields o) as (Hu & Hh & _).
      assert (Hm : mediaOk o)
        by (unfold overlayOk in Hs; rewrite Ho in Hs; tauto).
      destruct (picture item) as [p |] eqn:Hp.
      * rewrite (setOverlayMedia_picture item p o) by assumption.
        cbn [stateOf]. apply overlayOk_display with (o := o); auto.
        right. exists (prepareClone p). cbn.
        rewrite (removePicture_ok o Hm). cbn.
        pose proof (getItem_picture_hasTag _ _ _ Hi Hp).
        auto using prepareClone_picture, prepareClone_marked.
      * rewrite (setOverlayMedia_no_picture item o) by assumption.
        cbn [stateOf]. apply overlayOk_display with (o := o); auto.
        left. now apply removePicture_ok.
    + rewrite setOverlayMedia_no_overlay by assumption.
      cbn [stateOf]. now apply overlayOk_setActiveIndex.
  - now rewrite showAt_no_item.
Qed.

Lemma showAt_indexOk (i : num) (s : State) :
  indexOk galleryLinks s ->
  indexOk galleryLinks (stateOf (showAt galleryLinks i s)).
Proof.
  intros Hs.
  destruct (getItem galleryLinks (normalize galleryLinks i)) as [item |] eqn:Hi.
  - assert (E : activeIndex (stateOf (showAt galleryLinks i s)) =
               normalize galleryLinks i).
    { rewrite (showAt_item _ _ s Hi). run_script.
      cbn. destruct (overlay s); [destruct (picture item) |]; reflexivity. }
    apply getItem_Some_Int in Hi as (k & Hk & Hr & _).
    exists k. rewrite E. auto.
  - now rewrite showAt_no_item.
Qed.

Lemma showAt_invariant (i : num) (s : State) :
  invariant galleryLinks s ->
  invariant galleryLinks (stateOf (showAt galleryLinks i s)).
Proof.
  intros [Hi Ho]. split; auto using showAt_indexOk, showAt_overlayOk.
Qed.

Lemma showByOffset_invariant (d : num) (s : State) :
  invariant galleryLinks s ->
  invariant galleryLinks (stateOf (showByOffset galleryLinks d s)).
Proof.
  intros H. unfold showByOffset, bind, get. now apply showAt_invariant.
Qed.

Lemma closeLightbox_invariant (s : State) :
  invariant galleryLinks s ->
  invariant galleryLinks (stateOf (closeLightbox s)).
Proof.
  intros [Hi Ho]. run_script. unfold overlayOk in Ho.
  destruct (overlay s) as [o |] eqn:E; [| split; [assumption |]].
  - destruct Ho as (Hm & Hb & _).
    destruct (restoreFocusTo s) as [e |]; cbn;
      [destruct (present s e) |]; cbn;
      (split; [exact Hi |]); unfold overlayOk; cbn;
      (split; [exact Hm |]); (split; [exact Hb |]); intros _;
      auto using contains_tokensRemove.
  - unfold overlayOk. cbn [stateOf]. now rewrite E.
Qed.


(** *** [showAt] once the overlay is built *)

Lemma sameOutside_refl (s : State) : sameOutside s s.
Proof. unfold sameOutside. tauto. Qed.

Lemma showAt_sameOutside (i : num) (s : State) :
  sameOutside s (stateOf (showAt galleryLinks i s)).
Proof.
  destruct (getItem galleryLinks (normalize galleryLinks i)) as [item |] eqn:Hi.
  - rewrite (showAt_item _ _ s Hi). run_script. cbn.
    destruct (overlay s); [destruct (picture item) |]; cbn;
      unfold sameOutside; cbn; tauto.
  - rewrite showAt_no_item by assumption. apply sameOutside_refl.
Qed.

Lemma showAt_returns (i : num) (s : State) (o : Overlay) :
  overlay s = Some o ->
  exists s' o',
    showAt galleryLinks i s = Returns tt s' /\
    overlay s' = Some o' /\ uid o' = uid o /\ hidden o' = hidden o.
Proof.
  intros Ho.
  destruct (getItem galleryLinks (normalize galleryLinks i)) as [item |] eqn:Hi.
  - rewrite (showAt_item _ _ s Hi).
    pose proof (removePicture_fields o) as (Hu & Hh & _).
    destruct (picture item) as [p |] eqn:Hp.
    + rewrite (setOverlayMedia_picture item p o) by assumption.
      eexists _, _. split; [reflexivity |]. cbn. auto.
    + rewrite (setOverlayMedia_no_picture item o) by assumption.
      eexists _, _. split; [reflexivity |]. cbn. auto.
  - rewrite showAt_no_item by assumption. exists s, o. auto.
Qed.

Lemma overlay_revealed (s : State) :
  exists o, overlay (revealed s) = Some o /\ hidden o = false /\
            bodyOverlays (revealed s) = (match overlay s with
                                        | Some _ => bodyOverlays s
                                        | None => bodyOverlays s ++ [uid o]
                                        end)%list /\
            match overlay s with
            | Some o0 => uid o = uid o0 /\ figureMedia o = figureMedia o0 /\
                         captionText o = captionText o0
            | None => figureMedia o = [] /\ captionText o = ""
            end.
Proof.
  unfold revealed. destruct (overlay s) as [o |]; eexists; cbn;
    repeat split; reflexivity.
Qed.

Lemma openLightbox_steps (i : num) (s : State) :
  openLightbox galleryLinks i s =
  match showAt galleryLinks i (revealed s) with
  | Returns _ s' => Returns tt (listening s')
  | Throws s' => Throws s'
  end.
Proof.
  destruct (overlay_revealed s) as (o & Ho & _).
  destruct (showAt_returns i _ o Ho) as (s' & o' & Hr & Ho' & _).
  rewrite Hr.
  unfold openLightbox, buildOverlay, focus, bind, get, modify, ret.
  unfold revealed in Hr.
  destruct (overlay s) as [o0 |] eqn:E; cbn; rewrite ?E; cbn;
    unfold setOverlay, setBodyClassList, setRestoreFocusTo,
      setHidden, focusedHTMLElement in *; cbn in *;
    rewrite Hr; cbn; rewrite Ho'; reflexivity.
Qed.

Lemma openLightbox_returns (i : num) (s : State) :
  exists s', openLightbox galleryLinks i s = Returns tt s'.
Proof.
  rewrite openLightbox_steps.
  destruct (overlay_revealed s) as (o & Ho & _).
  destruct (showAt_returns i _ o Ho) as (s' & o' & -> & _). eauto.
Qed.

Lemma revealed_invariant (s : State) :
  invariant galleryLinks s -> invariant galleryLinks (revealed s).
Proof.
  intros [Hi Ho]. unfold overlayOk in Ho. unfold revealed.
  destruct (overlay s) as [o |]; (split; [exact Hi |]); unfold overlayOk; cbn.
  - destruct Ho as (Hm & Hb & _). repeat split; auto; discriminate.
  - destruct Ho as (Hb & _). rewrite Hb.
    repeat split; auto; try discriminate. now left.
Qed.

Lemma listening_invariant (s : State) (o : Overlay) :
  overlay s = Some o -> hidden o = false ->
  invariant galleryLinks s -> invariant galleryLinks (listening s).
Proof.
  intros Ho Hh [Hi Hs]. unfold overlayOk in Hs. rewrite Ho in Hs.
  destruct Hs as (Hm & Hb & _).
  unfold listening. cbn. destruct (present s CloseButton);
    (split; [exact Hi |]); unfold overlayOk; cbn; rewrite Ho;
    repeat split; auto; congruence.
Qed.

Lemma openLightbox_invariant (i : num) (s : State) :
  invariant galleryLinks s ->
  invariant galleryLinks (stateOf (openLightbox galleryLinks i s)).
Proof.
  intros H. rewrite openLightbox_steps.
  destruct (overlay_revealed s) as (o & Ho & Hh & _).
  destruct (showAt_returns i _ o Ho) as (s' & o' & Hr & Ho' & _ & Hh').
  pose proof (showAt_invariant i _ (revealed_invariant s H)) as H'.
  rewrite Hr in *. cbn [stateOf] in *.
  apply listening_invariant with (o := o'); congruence.
Qed.

Lemma onKeyDown_invariant (ev : KeyboardEvent) (s : State) :
  invariant galleryLinks s ->
  invariant galleryLinks (stateOf (onKeyDown galleryLinks ev s)).
Proof.
  intros H. unfold onKeyDown, bind, get, ret.
  destruct (match overlay s with Some o => hidden o | None => false end);
    [exact H |].
  destruct (String.eqb (key ev) "Escape").
  { pose proof (closeLightbox_invariant s H) as H'.
    now destruct (closeLightbox s). }
  destruct (String.eqb (key ev) "ArrowLeft").
  { pose proof (showByOffset_invariant (Int (-1)) s H) as H'.
    now destruct (showByOffset galleryLinks (Int (-1)) s). }
  destruct (String.eqb (key ev) "ArrowRight").
  { pose proof (showByOffset_invariant (Int 1) s H) as H'.
    now destruct (showByOffset galleryLinks (Int 1) s). }
  exact H.
Qed.

Lemma onOverlayClick_invariant (ev : OverlayClick) (s : State) :
  invariant galleryLinks s ->
  invariant galleryLinks (stateOf (onOverlayClick ev s)).
Proof.
  intros H. unfold onOverlayClick.
  destruct (negb (targetIsElement ev)); [exact H |].
  destruct (closestMedia ev); [exact H |].
  destruct (closestPrevNext ev); [exact H |].
  destruct (closestClose ev); [exact H |].
  now apply closeLightbox_invariant.
Qed.

Lemma onLinkClick_invariant (i : nat) (ev : MouseEvent) (s : State) :
  invariant galleryLinks s ->
  invariant galleryLinks (stateOf (onLinkClick galleryLinks i ev s)).
Proof.
  intros H. unfold onLinkClick.
  destruct (defaultPrevented ev || negb (button ev =? 0)%Z || metaKey ev
            || ctrlKey ev || shiftKey ev || altKey ev); [exact H |].
  unfold bind, ret.
  pose proof (openLightbox_invariant (Int (Z.of_nat i)) s H) as H'.
  now destruct (openLightbox galleryLinks (Int (Z.of_nat i)) s).
Qed.

Lemma initial_invariant (classes : list string) (focused : option element)
  (pres : element -> bool) :
  invariant galleryLinks (initial classes focused pres).
Proof.
  split.
  - exists 0. cbn. auto.
  - unfold overlayOk. cbn. auto.
Qed.

Lemma exec_invariant (o : op) (s : State) :
  invariant galleryLinks s -> invariant galleryLinks (exec galleryLinks o s).
Proof.
  intros H. destruct o; cbn [exec];
    auto using openLightbox_invariant, showAt_invariant,
      showByOffset_invariant, closeLightbox_invariant, onKeyDown_invariant,
      onOverlayClick_invariant, onLinkClick_invariant.
Qed.

Lemma reachable_invariant (s : State) :
  reachable galleryLinks s -> invariant galleryLinks s.
Proof.
  induction 1; auto using initial_invariant, exec_invariant.
Qed.

Lemma run_reachable (ops : list op) (s : State) :
  reachable galleryLinks s -> reachable galleryLinks (run galleryLinks ops s).
Proof.
  revert s. induction ops as [| o r IH]; intros s H; cbn.
  - exact H.
  - apply IH. now constructor.
Qed.

(** *** Displaying an item *)

Lemma normalize_small (k : Z) :
  0 <= k < galleryLength galleryLinks ->
  normalize galleryLinks (Int k) = Int k.
Proof.
  intros Hk. rewrite normalize_Int.
  - now rewrite Z.mod_small.
  - intros E. rewrite E in Hk. cbn in Hk. lia.
Qed.

Lemma hasTag_captionNode (o : Overlay) :
  hasTag "picture" (captionNode o) = false.
Proof. reflexivity. Qed.

Lemma mediaNodes_single (o : Overlay) (m : node) :
  figureMedia o = [m] -> hasTag "picture" m = true -> mediaNodes o = [m].
Proof.
  intros E Hm. unfold mediaNodes, figureNode, figureChildren.
  cbn [childNodes]. rewrite E. cbn [app filter].
  now rewrite Hm, hasTag_captionNode.
Qed.

Lemma mediaNodes_length (o : Overlay) :
  mediaOk o -> (List.length (mediaNodes o) <= 1)%nat.
Proof.
  intros [E | (m & E & Hm & _)].
  - unfold mediaNodes, figureNode, figureChildren. cbn [childNodes].
    rewrite E. cbn [app filter]. rewrite hasTag_captionNode. cbn. lia.
  - rewrite (mediaNodes_single o m E Hm). cbn. lia.
Qed.

Lemma showAt_shows (k : Z) (item : Item) (pic : node) (s : State)
  (o : Overlay) :
  overlay s = Some o -> mediaOk o ->
  getItem galleryLinks (Int k) = Some item -> picture item = Some pic ->
  shows k pic (alt item) (showAt galleryLinks (Int k) s).
Proof.
  intros Ho Hm Hi Hp.
  pose proof (getItem_picture_hasTag _ _ _ Hi Hp) as Ht.
  destruct (getItem_Some_Int _ _ Hi) as (k' & [= <-] & Hk & _).
  rewrite <- (normalize_small k Hk) in Hi.
  rewrite (showAt_item _ _ s Hi), (setOverlayMedia_picture item pic o)
    by assumption.
  eexists _, _. split; [reflexivity |]. cbn.
  split; [reflexivity |]. split; [now apply normalize_small |].
  rewrite (removePicture_ok o Hm).
  repeat split.
  apply mediaNodes_single; cbn; [reflexivity |].
  now apply prepareClone_picture.
Qed.

Lemma listening_shows (k : Z) (pic : node) (caption : string) (s : State) :
  shows k pic caption (Returns tt s) ->
  shows k pic caption (Returns tt (listening s)).
Proof.
  intros (s' & o & [= <-] & H). exists (listening s), o.
  split; [reflexivity |]. unfold listening.
  cbn. now destruct (present s CloseButton).
Qed.

Lemma openLightbox_shows (k : Z) (item : Item) (pic : node) (s : State) :
  invariant galleryLinks s ->
  getItem galleryLinks (Int k) = Some item -> picture item = Some pic ->
  shows k pic (alt item) (openLightbox galleryLinks (Int k) s).
Proof.
  intros Hs Hi Hp. rewrite openLightbox_steps.
  destruct (overlay_revealed s) as (o & Ho & _).
  pose proof (revealed_invariant s Hs) as [_ Hr].
  unfold overlayOk in Hr. rewrite Ho in Hr. destruct Hr as (Hm & _).
  pose proof (showAt_shows k item pic _ o Ho Hm Hi Hp) as H.
  destruct H as (s' & o' & E & H). rewrite E.
  apply listening_shows. exists s', o'. auto.
Qed.

Lemma prepareClone_erased (pic : node) :
  withoutAttrs loadingAttrs (prepareClone pic) =
  withoutAttrs loadingAttrs (classListAdd "lightbox-media" pic).
Proof.
  unfold prepareClone. rewrite cloneNode_deep.
  apply withoutAttrs_updateFirst. intros x. unfold eagerImage.
  now rewrite !withoutAttrs_setAttribute.
Qed.

Lemma prepareClone_img (pic : node) :
  querySelector "img" (prepareClone pic) =
  option_map eagerImage (querySelector "img" pic).
Proof.
  unfold prepareClone. rewrite cloneNode_deep, querySelector_updateFirst.
  - now destruct pic.
  - intros x. now destruct x.
Qed.

Lemma eagerImage_attrs (t : string) (cs : list string)
  (a : list (string * string)) (ch : list node) :
  let img := eagerImage (Element t cs a ch) in
  getAttribute "loading" img = Some "eager" /\
  getAttribute "decoding" img = Some "async" /\
  getAttribute "sizes" img = Some "100vw".
Proof.
  unfold eagerImage, getAttribute. cbn [setAttribute attributes].
  repeat split.
  - rewrite !lookupAttr_storeAttr_other by (apply String.eqb_neq; reflexivity).
    apply lookupAttr_storeAttr.
  - rewrite lookupAttr_storeAttr_other by (apply String.eqb_neq; reflexivity).
    apply lookupAttr_storeAttr.
  - apply lookupAttr_storeAttr.
Qed.

(** *** The claims about displaying *)

(** C1. For a valid thumbnail index [i] whose item has a picture,
    Activate(i), and DisplayItem(i) once the overlay is there, return
    with the figure holding exactly the clone of that picture and the
    caption: the clone is the picture of link [i] marked "lightbox-media"
    with its first image made eager (it differs from the marked picture in
    the attributes loading, decoding and sizes at most), and the caption
    text is the alt attribute of the first image of the link, the empty
    string when there is no image or no alt attribute. *)
Theorem activate_displays_item (i : nat) (item : Item) (pic : node)
  (s : State) :
  reachable galleryLinks s ->
  getItem galleryLinks (Int (Z.of_nat i)) = Some item ->
  picture item = Some pic ->
  shows (Z.of_nat i) pic (alt item)
        (openLightbox galleryLinks (Int (Z.of_nat i)) s) /\
  (overlay s <> None ->
   shows (Z.of_nat i) pic (alt item)
         (showAt galleryLinks (Int (Z.of_nat i)) s)) /\
  nth_error galleryLinks i = Some (link item) /\
  querySelector "picture" (link item) = Some pic /\
  contains "lightbox-media" (classList (prepareClone pic)) = true /\
  withoutAttrs loadingAttrs (prepareClone pic) =
    withoutAttrs loadingAttrs (classListAdd "lightbox-media" pic) /\
  querySelector "img" (prepareClone pic) =
    option_map eagerImage (querySelector "img" pic) /\
  alt item =
    match querySelector "img" (link item) with
    | Some img =>
        match getAttribute "alt" img with
        | Some a => a
        | None => ""
        end
    | None => ""
    end.
Proof.
  intros Hr Hi Hp. pose proof (reachable_invariant s Hr) as Hinv.
  pose proof (getItem_picture_hasTag _ _ _ Hi Hp) as Ht.
  split; [now apply openLightbox_shows |].
  split.
  { intros Ho. destruct (overlay s) as [o |] eqn:E; [| congruence].
    apply showAt_shows with (o := o); auto.
    destruct Hinv as [_ Hov]. unfold overlayOk in Hov. rewrite E in Hov.
    tauto. }
  destruct (getItem_Some_Int _ _ Hi) as (k & [= <-] & Hk & Hn & Hq).
  rewrite Nat2Z.id in Hn.
  split; [exact Hn |]. split; [congruence |].
  split; [now apply prepareClone_marked |].
  split; [apply prepareClone_erased |].
  split; [apply prepareClone_img |].
  unfold getItem in Hi. destruct (index galleryLinks (Int (Z.of_nat i)));
    [| discriminate].
  injection Hi as <-. cbn [alt link].
  destruct (querySelector "img" n) as [img |]; [| reflexivity].
  destruct (getAttribute "alt" img) as [a |]; [| reflexivity].
  apply orEmpty_Some.
Qed.

(** C2. With at least one thumbnail, DisplayItem brings every integer
    index into [0, n) by wrap-around: the normalized index is [i mod n],
    which is what [activeIndex] becomes; -1 gives the last item; Navigate
    by +1 from n-1 gives 0, and by -1 from 0 gives n-1. *)
Theorem showAt_wraps (i : Z) (s : State) :
  galleryLinks <> [] ->
  let n := galleryLength galleryLinks in
  normalize galleryLinks (Int i) = Int (i mod n) /\
  0 <= i mod n < n /\
  activeIndex (stateOf (showAt galleryLinks (Int i) s)) = Int (i mod n) /\
  (overlay s <> None ->
   returned (showAt galleryLinks (Int i) s) = true) /\
  normalize galleryLinks (Int (-1)) = Int (n - 1) /\
  (activeIndex s = Int (n - 1) ->
   activeIndex (stateOf (showByOffset galleryLinks (Int 1) s)) = Int 0) /\
  (activeIndex s = Int 0 ->
   activeIndex (stateOf (showByOffset galleryLinks (Int (-1)) s)) =
   Int (n - 1)).
Proof.
  intros Hne n. pose proof (galleryLength_pos Hne) as Hn. fold n in Hn.
  assert (Hact : forall j t,
             activeIndex (stateOf (showAt galleryLinks (Int j) t)) =
             Int (j mod n)).
  { intros j t. destruct (getItem_normalize j Hne) as (item & Hi).
    rewrite (showAt_item _ _ t Hi), normalize_Int by assumption.
    run_script. cbn.
    destruct (overlay t); [destruct (picture item) |]; reflexivity. }
  split; [now apply normalize_Int |].
  split; [apply Z.mod_pos_bound; lia |].
  split; [apply Hact |].
  split.
  { intros Ho. destruct (overlay s) as [o |] eqn:E; [| congruence].
    destruct (showAt_returns (Int i) s o E) as (s' & o' & -> & _).
    reflexivity. }
  split.
  { rewrite normalize_Int by assumption. f_equal. fold n.
    replace (-1) with (n - 1 + (-1) * n) by lia.
    rewrite Z.mod_add by lia. apply Z.mod_small. lia. }
  split.
  - intros E. unfold showByOffset, bind, get. rewrite E. cbn [add].
    rewrite Hact. f_equal.
    replace (n - 1 + 1) with (0 + 1 * n) by lia.
    rewrite Z.mod_add by lia. now apply Z.mod_small.
  - intros E. unfold showByOffset, bind, get. rewrite E. cbn [add].
    rewrite Hact. f_equal.
    replace (0 + -1) with (n - 1 + (-1) * n) by lia.
    rewrite Z.mod_add by lia. apply Z.mod_small. lia.
Qed.

(** C3. In every state of a run the figure of the overlay has at most one
    media node: its children are the caption alone, or one picture and
    the caption.  DisplayItem keeps it so and leaves none of the media
    nodes it found: when it resolves an item, the media nodes after it are
    the new clone alone (none when the item has no picture). *)
Theorem at_most_one_media (s : State) (o : Overlay) :
  reachable galleryLinks s -> overlay s = Some o ->
  (List.length (mediaNodes o) <= 1)%nat /\
  (figureChildren o = [captionNode o] \/
   exists m, figureChildren o = [m; captionNode o] /\
             hasTag "picture" m = true) /\
  forall i : num,
    exists o',
      overlay (stateOf (showAt galleryLinks i s)) = Some o' /\
      (List.length (mediaNodes o') <= 1)%nat /\
      forall item,
        getItem galleryLinks (normalize galleryLinks i) = Some item ->
        mediaNodes o' = match picture item with
                        | Some pic => [prepareClone pic]
                        | None => []
                        end.
Proof.
  intros Hr Ho. pose proof (reachable_invariant s Hr) as [_ Hov].
  unfold overlayOk in Hov. rewrite Ho in Hov. destruct Hov as (Hm & _).
  split; [now apply mediaNodes_length |].
  split.
  { unfold figureChildren.
    destruct Hm as [E | (m & E & Ht & _)]; rewrite E; cbn; eauto. }
  intros i.
  pose proof (reachable_invariant _
                (reachable_exec galleryLinks s (DisplayItem i) Hr))
    as [_ Hov'].
  cbn [exec] in Hov'. unfold overlayOk in Hov'.
  destruct (showAt_returns i s o Ho) as (s' & o' & E & Ho' & _).
  rewrite E in *. cbn [stateOf] in *. rewrite Ho' in Hov'.
  destruct Hov' as (Hm' & _).
  exists o'. split; [exact Ho' |].
  split; [now apply mediaNodes_length |].
  intros item Hi.
  rewrite (showAt_item _ _ s Hi) in E.
  destruct (picture item) as [pic |] eqn:Hp.
  - rewrite (setOverlayMedia_picture item pic o) in E by assumption.
    injection E as <-. cbn in Ho'. injection Ho' as <-.
    pose proof (getItem_picture_hasTag _ _ _ Hi Hp) as Ht.
    apply mediaNodes_single.
    + cbn. now rewrite (removePicture_ok o Hm).
    + now apply prepareClone_picture.
  - rewrite (setOverlayMedia_no_picture item o) in E by assumption.
    injection E as <-. cbn in Ho'. injection Ho' as <-.
    unfold mediaNodes, figureNode, figureChildren.
    cbn [childNodes]. rewrite (removePicture_ok o Hm). reflexivity.
Qed.

(** The search of [setOverlayMedia] in the figure never reaches into the
    caption, so [removePicture] is the removal among all the children of
    the figure. *)
Lemma removeInForest_figureChildren (o : Overlay) :
  removeInForest "picture" (figureChildren o) =
  option_map (fun m => (m ++ [captionNode o])%list)
             (removeInForest "picture" (figureMedia o)).
Proof.
  unfold figureChildren. rewrite removeInForest_app.
  destruct (removeInForest "picture" (figureMedia o)); [reflexivity |].
  unfold captionNode, textChildren.
  now destruct (String.eqb (captionText o) "").
Qed.

Lemma figureChildren_removePicture (o : Overlay) :
  figureChildren (removePicture o) =
  match removeInForest "picture" (figureChildren o) with
  | Some l => l
  | None => figureChildren o
  end.
Proof.
  rewrite removeInForest_figureChildren. unfold removePicture.
  now destruct (removeInForest "picture" (figureMedia o)).
Qed.

(** C4. With at least one thumbnail, the active index of every state of a
    run is an integer in [0, n): so it is whenever the overlay is open,
    and no state with an out-of-range active index is reached. *)
Theorem activeIndex_in_range (s : State) :
  galleryLinks <> [] -> reachable galleryLinks s ->
  exists k, activeIndex s = Int k /\ 0 <= k < galleryLength galleryLinks.
Proof.
  intros Hne Hr. pose proof (galleryLength_pos Hne) as Hn.
  destruct (reachable_invariant s Hr) as [(k & Hk & Hrange) _].
  exists k. split; [exact Hk |]. lia.
Qed.

(** C10. With at least one thumbnail, DisplayItem(i) and
    DisplayItem(i + k*n) are the same call: from the same state they
    return or throw alike and leave the same state. *)
Theorem showAt_periodic (i k : Z) (s : State) :
  galleryLinks <> [] ->
  showAt galleryLinks (Int (i + k * galleryLength galleryLinks)) s =
  showAt galleryLinks (Int i) s.
Proof.
  intros Hne. pose proof (galleryLength_pos Hne) as Hn.
  unfold showAt. rewrite !normalize_Int by assumption.
  now rewrite Z.mod_add by lia.
Qed.

(** C6. The click listener of a thumbnail: on a modified click (ctrl,
    meta, shift or alt held), a click of another button than the primary
    one, or a click whose default was already prevented, it returns with
    the state and the event as they were; on any other click it prevents
    the default and does what Activate does with the position of the
    thumbnail, which leaves the overlay revealed. *)
Theorem link_click_policy (index : nat) (event : MouseEvent) (s : State) :
  (ctrlKey event = true \/ metaKey event = true \/ shiftKey event = true \/
   altKey event = true \/ button event <> 0 \/ defaultPrevented event = true ->
   onLinkClick galleryLinks index event s = Returns event s) /\
  (ctrlKey event = false -> metaKey event = false ->
   shiftKey event = false -> altKey event = false ->
   button event = 0 -> defaultPrevented event = false ->
   exists s' o,
     openLightbox galleryLinks (Int (Z.of_nat index)) s = Returns tt s' /\
     onLinkClick galleryLinks index event s =
       Returns (preventDefault event) s' /\
     defaultPrevented (preventDefault event) = true /\
     overlay s' = Some o /\ hidden o = false).
Proof.
  unfold onLinkClick. split.
  - intros H.
    assert (E : defaultPrevented event || negb (button event =? 0)%Z
                || metaKey event || ctrlKey event || shiftKey event
                || altKey event = true).
    { destruct (Z.eqb_spec (button event) 0);
        destruct (defaultPrevented event), (metaKey event), (ctrlKey event),
          (shiftKey event), (altKey event); cbn; try reflexivity;
        destruct H as [H | [H | [H | [H | [H | H]]]]]; congruence. }
    now rewrite E.
  - intros -> -> -> -> Hb ->. rewrite Hb. cbn [Z.eqb negb orb].
    unfold bind, ret. rewrite openLightbox_steps.
    destruct (overlay_revealed s) as (o & Ho & Hh & _).
    destruct (showAt_returns (Int (Z.of_nat index)) _ o Ho)
      as (s' & o' & -> & Ho' & _ & Hh').
    exists (listening s'), o'. repeat split.
    + unfold listening. cbn. now destruct (present s' CloseButton).
    + congruence.
Qed.

(** *** The overlay root over a run *)

Lemma showAt_keeps_root (i : num) (s : State) (ov : Overlay) :
  overlay s = Some ov ->
  exists ov', overlay (stateOf (showAt galleryLinks i s)) = Some ov' /\
              uid ov' = uid ov.
Proof.
  intros Ho. destruct (showAt_returns i s ov Ho) as (s' & o' & -> & H & Hu & _).
  eauto.
Qed.

Lemma closeLightbox_keeps_root (s : State) (ov : Overlay) :
  overlay s = Some ov ->
  exists ov', overlay (stateOf (closeLightbox s)) = Some ov' /\
              uid ov' = uid ov.
Proof.
  intros Ho. run_script. rewrite Ho.
  destruct (restoreFocusTo s) as [e |]; cbn;
    [destruct (present s e) |]; cbn; eauto.
Qed.

Lemma openLightbox_keeps_root (i : num) (s : State) (ov : Overlay) :
  overlay s = Some ov ->
  exists ov', overlay (stateOf (openLightbox galleryLinks i s)) = Some ov' /\
              uid ov' = uid ov.
Proof.
  intros Ho. rewrite openLightbox_steps.
  destruct (overlay_revealed s) as (o & Hr & _ & _ & Hs). rewrite Ho in Hs.
  destruct Hs as (Hu & _).
  destruct (showAt_returns i _ o Hr) as (s' & o' & -> & H & Hu' & _).
  exists o'. split; [| congruence].
  unfold listening. cbn. now destruct (present s' CloseButton).
Qed.

Lemma exec_keeps_root (o : op) (s : State) (ov : Overlay) :
  overlay s = Some ov ->
  exists ov', overlay (exec galleryLinks o s) = Some ov' /\ uid ov' = uid ov.
Proof.
  intros Ho.
  destruct o as [i | i | d | | idx event | event | | | | event | e | p];
    cbn [exec];
    auto using showAt_keeps_root, closeLightbox_keeps_root,
      openLightbox_keeps_root.
  - unfold showByOffset, bind, get. now apply showAt_keeps_root.
  - unfold onLinkClick.
    destruct (defaultPrevented event || negb (button event =? 0)%Z
              || metaKey event || ctrlKey event || shiftKey event
              || altKey event); [cbn; eauto |].
    unfold bind, ret.
    destruct (openLightbox_keeps_root (Int (Z.of_nat idx)) s ov Ho)
      as (ov' & H & Hu).
    exists ov'. split; [| exact Hu].
    now destruct (openLightbox galleryLinks (Int (Z.of_nat idx)) s).
  - unfold onOverlayClick.
    destruct (negb (targetIsElement event)); [cbn; eauto |].
    destruct (closestMedia event); [cbn; eauto |].
    destruct (closestPrevNext event); [cbn; eauto |].
    destruct (closestClose event); [cbn; eauto |].
    now apply closeLightbox_keeps_root.
  - unfold showByOffset, bind, get. now apply showAt_keeps_root.
  - unfold showByOffset, bind, get. now apply showAt_keeps_root.
  - unfold onKeyDown, bind, get, ret. rewrite Ho.
    destruct (hidden ov); [cbn; eauto |].
    destruct (String.eqb (key event) "Escape").
    { destruct (closeLightbox_keeps_root s ov Ho) as (ov' & H & Hu).
      exists ov'. split; [| exact Hu]. now destruct (closeLightbox s). }
    destruct (String.eqb (key event) "ArrowLeft").
    { destruct (showAt_keeps_root (add (activeIndex s) (Int (-1))) s ov Ho)
        as (ov' & H & Hu).
      exists ov'. split; [| exact Hu]. unfold showByOffset, bind, get.
      now destruct (showAt galleryLinks (add (activeIndex s) (Int (-1))) s). }
    destruct (String.eqb (key event) "ArrowRight").
    { destruct (showAt_keeps_root (add (activeIndex s) (Int 1)) s ov Ho)
        as (ov' & H & Hu).
      exists ov'. split; [| exact Hu]. unfold showByOffset, bind, get.
      now destruct (showAt galleryLinks (add (activeIndex s) (Int 1)) s). }
    cbn. eauto.
  - cbn. eauto.
  - cbn. eauto.
Qed.

Lemma run_keeps_root (ops : list op) (s : State) (ov : Overlay) :
  overlay s = Some ov ->
  exists ov', overlay (run galleryLinks ops s) = Some ov' /\ uid ov' = uid ov.
Proof.
  revert s ov. induction ops as [| o r IH]; intros s ov Ho; cbn.
  - eauto.
  - destruct (exec_keeps_root o s ov Ho) as (ov1 & H1 & Hu1).
    destruct (IH _ ov1 H1) as (ov2 & H2 & Hu2).
    exists ov2. split; [exact H2 | congruence].
Qed.

(** C7. The overlay is built once.  An activation from any state of a run
    leaves an overlay whose root is the one child that the script has
    appended to the body: the root that was there before, if there was
    one, and a new one otherwise (nothing had been appended then).
    Whatever follows, later activations included, keeps that root and
    appends nothing. *)
Theorem overlay_built_once (s : State) (i : num) (ops : list op) :
  reachable galleryLinks s ->
  exists o1 o2,
    overlay (exec galleryLinks (Activate i) s) = Some o1 /\
    bodyOverlays (exec galleryLinks (Activate i) s) = [uid o1] /\
    match overlay s with
    | Some o => uid o1 = uid o /\ bodyOverlays s = [uid o]
    | None => bodyOverlays s = []
    end /\
    overlay (run galleryLinks ops (exec galleryLinks (Activate i) s)) =
      Some o2 /\
    uid o2 = uid o1 /\
    bodyOverlays (run galleryLinks ops (exec galleryLinks (Activate i) s)) =
      [uid o1].
Proof.
  intros Hr.
  pose proof (reachable_invariant s Hr) as [_ H0].
  pose proof (reachable_exec galleryLinks s (Activate i) Hr) as Hr1.
  pose proof (reachable_invariant _ Hr1) as [_ H1].
  pose proof (reachable_invariant _ (run_reachable ops _ Hr1)) as [_ H2].
  unfold overlayOk in H0, H1, H2.
  assert (E1 : exists o1, overlay (exec galleryLinks (Activate i) s) = Some o1
                          /\ match overlay s with
                             | Some o => uid o1 = uid o
                             | None => True
                             end).
  { destruct (overlay s) as [o |] eqn:Ho.
    - destruct (exec_keeps_root (Activate i) s o Ho) as (o1 & H & Hu). eauto.
    - cbn [exec]. rewrite openLightbox_steps.
      destruct (overlay_revealed s) as (o & Hrev & _).
      destruct (showAt_returns i _ o Hrev) as (s' & o' & -> & H & _).
      exists o'. split; [| exact I]. unfold listening. cbn.
      now destruct (present s' CloseButton). }
  destruct E1 as (o1 & E1 & Hu1).
  destruct (run_keeps_root ops _ o1 E1) as (o2 & E2 & Hu2).
  rewrite E1 in H1. rewrite E2 in H2.
  exists o1, o2. repeat split; try tauto.
  - destruct (overlay s); tauto.
  - destruct H2 as (_ & H2 & _). congruence.
Qed.

(** *** Closing *)

(** C9. Deactivate does nothing when there is no overlay or the overlay is
    hidden: in such a state of a run, [closeLightbox] returns with the
    state it was called in, every variable and every part of the document
    as before. *)
Theorem close_noop_when_closed (s : State) :
  reachable galleryLinks s ->
  (overlay s = None \/ exists o, overlay s = Some o /\ hidden o = true) ->
  closeLightbox s = Returns tt s.
Proof.
  intros Hr Hc. pose proof (reachable_invariant s Hr) as [_ Hov].
  unfold overlayOk in Hov. run_script.
  destruct Hc as [Ho | (o & Ho & Hh)]; rewrite Ho in *.
  - reflexivity.
  - destruct Hov as (_ & _ & Hq). destruct (Hq Hh) as (Hf & Hb & Hk).
    rewrite Hf. cbn. f_equal.
    destruct s as [ai ov rf bc bo ec kl ae pr]. cbn in *. subst.
    rewrite (tokensRemove_absent _ _ Hb).
    destruct o as [u h m c]. cbn in *. subst. reflexivity.
Qed.

Lemma exec_keepsOpen (o : op) (s : State) (ov : Overlay) :
  keepsOpen o = true -> overlay s = Some ov -> hidden ov = false ->
  restoreFocusTo (exec galleryLinks o s) = restoreFocusTo s /\
  exists ov', overlay (exec galleryLinks o s) = Some ov' /\ hidden ov' = false.
Proof.
  intros Hk Ho Hh.
  assert (Hshow : forall j,
             restoreFocusTo (stateOf (showAt galleryLinks j s)) =
             restoreFocusTo s /\
             exists ov', overlay (stateOf (showAt galleryLinks j s)) = Some ov'
                         /\ hidden ov' = false).
  { intros j. split; [apply (showAt_sameOutside j s) |].
    destruct (showAt_returns j s ov Ho) as (s' & o' & -> & H & _ & Hh').
    exists o'. split; [exact H | congruence]. }
  destruct o as [i | i | d | | idx event | event | | | | event | e | p];
    cbn [exec]; try discriminate; try apply Hshow; try (cbn; now eauto).
  unfold onKeyDown, bind, get, ret. rewrite Ho, Hh.
  cbn in Hk. destruct (String.eqb (key event) "Escape"); [discriminate |].
  destruct (String.eqb (key event) "ArrowLeft").
  { specialize (Hshow (add (activeIndex s) (Int (-1)))).
    unfold showByOffset, bind, get.
    now destruct (showAt galleryLinks (add (activeIndex s) (Int (-1))) s). }
  destruct (String.eqb (key event) "ArrowRight").
  { specialize (Hshow (add (activeIndex s) (Int 1))).
    unfold showByOffset, bind, get.
    now destruct (showAt galleryLinks (add (activeIndex s) (Int 1)) s). }
  cbn. eauto.
Qed.

Lemma run_keepsOpen (ops : list op) (s : State) (ov : Overlay) :
  forallb keepsOpen ops = true -> overlay s = Some ov -> hidden ov = false ->
  restoreFocusTo (run galleryLinks ops s) = restoreFocusTo s /\
  exists ov', overlay (run galleryLinks ops s) = Some ov' /\
              hidden ov' = false.
Proof.
  revert s ov. induction ops as [| o r IH]; intros s ov Hk Ho Hh.
  - cbn. eauto.
  - cbn in Hk. apply andb_true_iff in Hk as [Hk Hr].
    destruct (exec_keepsOpen o s ov Hk Ho Hh) as (Hf & ov1 & H1 & Hh1).
    destruct (IH _ ov1 Hr H1 Hh1) as (Hf2 & H2).
    change (run galleryLinks (o :: r) s)
      with (run galleryLinks r (exec galleryLinks o s)).
    split; [congruence | exact H2].
Qed.

Lemma openLightbox_records (i : num) (s : State) :
  restoreFocusTo (stateOf (openLightbox galleryLinks i s)) =
    focusedHTMLElement s /\
  exists o, overlay (stateOf (openLightbox galleryLinks i s)) = Some o /\
            hidden o = false.
Proof.
  rewrite openLightbox_steps.
  destruct (overlay_revealed s) as (o & Ho & Hh & _).
  pose proof (showAt_sameOutside i (revealed s)) as (Hf & _).
  destruct (showAt_returns i _ o Ho) as (s' & o' & E & Ho' & _ & Hh').
  rewrite E in *. cbn [stateOf] in *.
  split.
  - unfold listening. cbn.
    destruct (present s' CloseButton); cbn; rewrite Hf;
      unfold revealed; now destruct (overlay s).
  - exists o'. split; [| congruence].
    unfold listening. cbn. now destruct (present s' CloseButton).
Qed.

Lemma closeLightbox_focus (s : State) (o : Overlay) :
  overlay s = Some o ->
  returned (closeLightbox s) = true /\
  restoreFocusTo (stateOf (closeLightbox s)) = None /\
  activeElement (stateOf (closeLightbox s)) =
    match restoreFocusTo s with
    | Some e => if present s e then Some e else activeElement s
    | None => activeElement s
    end.
Proof.
  intros Ho. run_script. rewrite Ho.
  destruct (restoreFocusTo s) as [e |]; cbn;
    [destruct (present s e) |]; cbn; auto.
Qed.

(** C8, as the script has it.  Activate records the focused element when
    it is an HTMLElement, and nothing otherwise.  Whatever neither
    activates nor closes keeps the record and the overlay revealed.
    Deactivate then returns with the record cleared, and with the focus on
    the element that was focused before the Activate when that element is
    an HTMLElement and can still take focus; when nothing was recorded it
    leaves the focus where it is. *)
Theorem close_restores_recorded_focus (s : State) (i : num)
  (ops : list op) :
  forallb keepsOpen ops = true ->
  let s1 := exec galleryLinks (Activate i) s in
  let s2 := run galleryLinks ops s1 in
  let s3 := stateOf (closeLightbox s2) in
  restoreFocusTo s1 = focusedHTMLElement s /\
  restoreFocusTo s2 = restoreFocusTo s1 /\
  (exists o, overlay s2 = Some o /\ hidden o = false) /\
  returned (closeLightbox s2) = true /\
  restoreFocusTo s3 = None /\
  (forall e, activeElement s = Some e -> isHTMLElement e = true ->
             present s2 e = true -> activeElement s3 = Some e) /\
  (focusedHTMLElement s = None -> activeElement s3 = activeElement s2).
Proof.
  intros Hk s1 s2 s3.
  destruct (openLightbox_records i s) as (Hrec & o1 & Ho1 & Hh1).
  fold (exec galleryLinks (Activate i) s) in Hrec, Ho1. fold s1 in Hrec, Ho1.
  destruct (run_keepsOpen ops s1 o1 Hk Ho1 Hh1) as (Hf2 & o2 & Ho2 & Hh2).
  fold s2 in Hf2, Ho2.
  destruct (closeLightbox_focus s2 o2 Ho2) as (Hret & Hnone & Hact).
  fold s3 in Hnone, Hact.
  repeat split; try assumption.
  - eauto.
  - intros e He Hhtml Hp. rewrite Hact, Hf2, Hrec.
    unfold focusedHTMLElement. now rewrite He, Hhtml, Hp.
  - intros Hn. rewrite Hact, Hf2, Hrec, Hn. reflexivity.
Qed.

(** C5, as the script has it.  On missing data DisplayItem returns
    without an error.  When it resolves no item it leaves the state as it
    was.  When it resolves an item without a picture it still makes that
    item the active one and removes the media node of the overlay; it
    inserts none and leaves the caption, the visibility of the overlay and
    everything outside the overlay as they were. *)
Theorem display_without_picture (i : num) (s : State) (o : Overlay) :
  reachable galleryLinks s -> overlay s = Some o ->
  (getItem galleryLinks (normalize galleryLinks i) = None ->
   showAt galleryLinks i s = Returns tt s) /\
  (forall item,
     getItem galleryLinks (normalize galleryLinks i) = Some item ->
     picture item = None ->
     exists s' o',
       showAt galleryLinks i s = Returns tt s' /\
       activeIndex s' = normalize galleryLinks i /\
       overlay s' = Some o' /\
       mediaNodes o' = [] /\
       figureChildren o' = [captionNode o] /\
       captionText o' = captionText o /\
       hidden o' = hidden o /\
       uid o' = uid o /\
       sameOutside s s').
Proof.
  intros Hr Ho. split; [apply showAt_no_item |].
  intros item Hi Hp.
  pose proof (reachable_invariant s Hr) as [_ Hov].
  unfold overlayOk in Hov. rewrite Ho in Hov. destruct Hov as (Hm & _).
  pose proof (showAt_sameOutside i s) as Hsame.
  rewrite (showAt_item _ _ s Hi) in *.
  rewrite (setOverlayMedia_no_picture item o) in * by assumption.
  cbn [stateOf] in Hsame.
  pose proof (removePicture_fields o) as (Hu & Hh & Hc).
  pose proof (removePicture_ok o Hm) as He.
  eexists _, _. split; [reflexivity |]. cbn.
  repeat split; try assumption.
  - unfold mediaNodes, figureNode, figureChildren. cbn [childNodes].
    now rewrite He.
  - unfold figureChildren, captionNode. now rewrite He, Hc.
Qed.

(** *** Resolving an item *)

(** X1.  [getItem] gives [null] exactly for an index that is [NaN] or outside
    [0, n).  Otherwise the item is made of the link at that position: its
    picture is the first picture element inside the link (a picture
    element, when there is one), its alt text the alt attribute of the
    first image inside the link, the empty string when the image or the
    attribute is missing or empty. *)
Theorem getItem_bounds (i : num) :
  (getItem galleryLinks i = None <->
   match i with
   | NaN => True
   | Int k => k < 0 \/ galleryLength galleryLinks <= k
   end) /\
  forall item,
    getItem galleryLinks i = Some item ->
    exists k,
      i = Int k /\ 0 <= k < galleryLength galleryLinks /\
      nth_error galleryLinks (Z.to_nat k) = Some (link item) /\
      picture item = querySelector "picture" (link item) /\
      (forall p, picture item = Some p -> hasTag "picture" p = true) /\
      alt item =
        match querySelector "img" (link item) with
        | Some img =>
            match getAttribute "alt" img with
            | Some a => a
            | None => ""
            end
        | None => ""
        end.
Proof.
  split.
  - destruct i as [| k]; [split; [exact (fun _ => I) | reflexivity] |].
    split.
    + intros H.
      destruct (Z_lt_ge_dec k 0); [now left |].
      destruct (Z_lt_ge_dec k (galleryLength galleryLinks)); [| right; lia].
      destruct (getItem_Int k) as (lnk & _ & E); [lia | congruence].
    + intros H.
      destruct (getItem galleryLinks (Int k)) as [item |] eqn:E;
        [| reflexivity].
      apply getItem_Some_Int in E as (k' & [= <-] & Hk & _). lia.
  - intros item H.
    destruct (getItem_Some_Int _ _ H) as (k & -> & Hk & Hn & Hq).
    exists k. repeat split; try assumption; try lia.
    + intros p Hp. eapply getItem_picture_hasTag; eauto.
    + unfold getItem in H. destruct (index galleryLinks (Int k));
        [| discriminate].
      injection H as <-. cbn [alt link].
      destruct (querySelector "img" n) as [img |]; [| reflexivity].
      destruct (getAttribute "alt" img) as [a |]; [| reflexivity].
      apply orEmpty_Some.
Qed.

(** *** The image of the clone *)

Lemma getAttribute_eagerImage (name : string) (img : node) :
  contains name loadingAttrs = false ->
  getAttribute name (eagerImage img) = getAttribute name img.
Proof.
  intros H. destruct img as [d | t cs a ch]; [reflexivity |].
  unfold eagerImage, getAttribute. cbn [setAttribute attributes].
  unfold contains, loadingAttrs in H. cbn [existsb] in H.
  repeat (apply orb_false_iff in H as [?E H]).
  rewrite !lookupAttr_storeAttr_other; [reflexivity | | |];
    intros <-; rewrite String.eqb_refl in *; discriminate.
Qed.

(** X2.  The clone that [setOverlayMedia] inserts has its first image, when it
    has one, set to load eagerly, decode asynchronously and size to the
    full viewport width; every other attribute of that image, its classes
    and its children are those of the image of the thumbnail.  A picture
    without an image is cloned and marked, nothing more. *)
Theorem prepareClone_image (pic : node) :
  (forall img,
     querySelector "img" pic = Some img ->
     exists img',
       querySelector "img" (prepareClone pic) = Some img' /\
       getAttribute "loading" img' = Some "eager" /\
       getAttribute "decoding" img' = Some "async" /\
       getAttribute "sizes" img' = Some "100vw" /\
       (forall name, contains name loadingAttrs = false ->
                     getAttribute name img' = getAttribute name img) /\
       classList img' = classList img /\
       childNodes img' = childNodes img) /\
  (querySelector "img" pic = None ->
   prepareClone pic = classListAdd "lightbox-media" pic).
Proof.
  split.
  - intros img H. exists (eagerImage img).
    rewrite prepareClone_img, H.
    destruct (hasTag_Element "img" img (querySelector_hasTag _ _ _ H))
      as (t & cs & a & ch & ->).
    destruct (eagerImage_attrs t cs a ch) as (Hl & Hd & Hs).
    repeat split; auto using getAttribute_eagerImage.
  - intros H. unfold prepareClone. rewrite cloneNode_deep.
    apply updateFirst_none. now destruct pic.
Qed.

(** *** What displaying leaves alone, and when it throws *)

Lemma showAt_overlay_none (i : num) (s : State) :
  overlay s = None -> overlay (stateOf (showAt galleryLinks i s)) = None.
Proof.
  intros Ho.
  destruct (getItem galleryLinks (normalize galleryLinks i)) as [item |] eqn:Hi.
  - rewrite (showAt_item _ _ s Hi), setOverlayMedia_no_overlay by assumption.
    exact Ho.
  - now rewrite showAt_no_item.
Qed.

(** X3.  DisplayItem and Navigate change the active index and the contents of
    the figure, and nothing else: not the focus, the focus record, the
    classes of the body, the key listener or what was appended to the
    body, and of the overlay neither its root nor whether it is hidden;
    they build no overlay when there is none. *)
Theorem showAt_frame (i : num) (s : State) :
  sameOutside s (stateOf (showAt galleryLinks i s)) /\
  sameOutside s (stateOf (showByOffset galleryLinks i s)) /\
  (forall o,
     overlay s = Some o ->
     (exists o', overlay (stateOf (showAt galleryLinks i s)) = Some o' /\
                 uid o' = uid o /\ hidden o' = hidden o) /\
     (exists o', overlay (stateOf (showByOffset galleryLinks i s)) = Some o' /\
                 uid o' = uid o /\ hidden o' = hidden o)) /\
  (overlay s = None ->
   overlay (stateOf (showAt galleryLinks i s)) = None /\
   overlay (stateOf (showByOffset galleryLinks i s)) = None).
Proof.
  split; [apply showAt_sameOutside |].
  split; [unfold showByOffset, bind, get; apply showAt_sameOutside |].
  split.
  - intros o Ho. split.
    + destruct (showAt_returns i s o Ho) as (s' & o' & -> & H). eauto.
    + unfold showByOffset, bind, get.
      destruct (showAt_returns (add (activeIndex s) i) s o Ho)
        as (s' & o' & -> & H). eauto.
  - intros Ho. split; [now apply showAt_overlay_none |].
    unfold showByOffset, bind, get. now apply showAt_overlay_none.
Qed.

(** X4.  DisplayItem throws in one case only: an item is resolved and there is
    no overlay yet (the figure is null).  The active index has been
    assigned by then, and nothing else has changed. *)
Theorem showAt_throws_iff (i : num) (s : State) :
  (returned (showAt galleryLinks i s) = false <->
   overlay s = None /\
   getItem galleryLinks (normalize galleryLinks i) <> None) /\
  (returned (showAt galleryLinks i s) = false ->
   showAt galleryLinks i s =
   Throws (setActiveIndex (normalize galleryLinks i) s)).
Proof.
  destruct (getItem galleryLinks (normalize galleryLinks i)) as [item |] eqn:Hi.
  - rewrite (showAt_item _ _ s Hi).
    destruct (overlay s) as [o |] eqn:Ho.
    + destruct (showAt_returns i s o Ho) as (s' & o' & E & _).
      rewrite (showAt_item _ _ s Hi) in E. rewrite E. cbn.
      split; [split; [discriminate | intros [? _]; discriminate]
             | discriminate].
    + rewrite setOverlayMedia_no_overlay by assumption. cbn.
      split; [split; [split; [reflexivity | discriminate] | reflexivity]
             | reflexivity].
  - rewrite showAt_no_item by assumption. cbn.
    split; [split; [discriminate | intros [_ H]; congruence] | discriminate].
Qed.

(** X5.  On a page without thumbnails, and for an index that is not a number,
    DisplayItem resolves no item: it returns and leaves the state as it
    was, whether the overlay exists or not. *)
Theorem showAt_nothing_to_show (i : num) (s : State) :
  galleryLinks = [] \/ i = NaN ->
  showAt galleryLinks i s = Returns tt s.
Proof.
  intros H. apply showAt_no_item.
  destruct H as [H | ->].
  - now rewrite normalize_empty.
  - reflexivity.
Qed.

(** *** Opening and closing *)

Lemma openLightbox_post (i : num) (s : State) :
  exists s' o,
    openLightbox galleryLinks i s = Returns tt s' /\
    overlay s' = Some o /\ hidden o = false /\
    keydownListener s' = true /\
    bodyClassList s' = tokensAdd "lightbox-open" (bodyClassList s) /\
    restoreFocusTo s' = focusedHTMLElement s /\
    activeElement s' = (if present s CloseButton then Some CloseButton
                        else activeElement s) /\
    present s' = present s.
Proof.
  rewrite openLightbox_steps.
  destruct (overlay_revealed s) as (o & Ho & Hh & _).
  pose proof (showAt_sameOutside i (revealed s))
    as (Hf & Hb & _ & _ & _ & Ha & Hp).
  destruct (showAt_returns i _ o Ho) as (s' & o' & E & Ho' & _ & Hh').
  rewrite E in *. cbn [stateOf] in *.
  assert (R : restoreFocusTo (revealed s) = focusedHTMLElement s /\
              bodyClassList (revealed s) =
                tokensAdd "lightbox-open" (bodyClassList s) /\
              activeElement (revealed s) = activeElement s /\
              present (revealed s) = present s).
  { unfold revealed. now destruct (overlay s). }
  destruct R as (R1 & R2 & R3 & R4).
  exists (listening s'), o'. split; [reflexivity |].
  unfold listening. cbn. rewrite Hp, R4.
  destruct (present s CloseButton); cbn; repeat split; congruence.
Qed.

(** X6.  Activate never throws.  From any state it returns with the overlay
    present and revealed, the body marked "lightbox-open" (the class is
    appended unless it was there), the key listener registered, the
    focused HTMLElement recorded, and the focus on the close button when
    that can take focus. *)
Theorem activate_opens (i : num) (s : State) :
  exists s' o,
    openLightbox galleryLinks i s = Returns tt s' /\
    overlay s' = Some o /\ hidden o = false /\
    keydownListener s' = true /\
    bodyClassList s' = tokensAdd "lightbox-open" (bodyClassList s) /\
    contains "lightbox-open" (bodyClassList s') = true /\
    restoreFocusTo s' = focusedHTMLElement s /\
    activeElement s' = (if present s CloseButton then Some CloseButton
                        else activeElement s).
Proof.
  destruct (openLightbox_post i s)
    as (s' & o & E & Ho & Hh & Hk & Hb & Hf & Ha & _).
  exists s', o. repeat split; try assumption.
  rewrite Hb. apply contains_tokensAdd.
Qed.

Lemma closeLightbox_post (s : State) (o : Overlay) :
  overlay s = Some o ->
  exists s',
    closeLightbox s = Returns tt s' /\
    overlay s' = Some (setHidden true o) /\
    bodyClassList s' = tokensRemove "lightbox-open" (bodyClassList s) /\
    keydownListener s' = false /\
    restoreFocusTo s' = None /\
    activeIndex s' = activeIndex s /\
    bodyOverlays s' = bodyOverlays s /\
    present s' = present s.
Proof.
  intros Ho. run_script. rewrite Ho.
  destruct (restoreFocusTo s) as [e |]; cbn;
    [destruct (present s e) |]; cbn; eexists; repeat split.
Qed.

(** X7.  Deactivate with an overlay returns with the overlay hidden, the class
    "lightbox-open" off the body, the key listener unregistered and the
    focus record empty.  It keeps the active index and what the figure
    holds: the picture and the caption stay in the hidden overlay. *)
Theorem deactivate_closes (s : State) (o : Overlay) :
  overlay s = Some o ->
  exists s' o',
    closeLightbox s = Returns tt s' /\
    overlay s' = Some o' /\ hidden o' = true /\
    uid o' = uid o /\
    figureChildren o' = figureChildren o /\
    activeIndex s' = activeIndex s /\
    contains "lightbox-open" (bodyClassList s') = false /\
    keydownListener s' = false /\
    restoreFocusTo s' = None.
Proof.
  intros Ho.
  destruct (closeLightbox_post s o Ho)
    as (s' & E & Ho' & Hb & Hk & Hf & Hi & _).
  exists s', (setHidden true o). repeat split; try assumption.
  rewrite Hb. apply contains_tokensRemove.
Qed.

(** X8.  Deactivate twice is Deactivate once, from any state. *)
Theorem deactivate_idempotent (s : State) :
  closeLightbox (stateOf (closeLightbox s)) = closeLightbox s.
Proof.
  run_script. destruct (overlay s) as [o |] eqn:Ho.
  - destruct (restoreFocusTo s) as [e |]; cbn;
      [destruct (present s e) |]; cbn;
      now rewrite tokensRemove_idempotent.
  - cbn. now rewrite Ho.
Qed.


(** *** The classes of the body *)

Lemma showAt_classes (i : num) (s : State) :
  bodyClassList (stateOf (showAt galleryLinks i s)) = bodyClassList s.
Proof. apply (showAt_sameOutside i s). Qed.

Lemma closeLightbox_classes (s : State) :
  tokensRemove "lightbox-open" (bodyClassList (stateOf (closeLightbox s))) =
  tokensRemove "lightbox-open" (bodyClassList s).
Proof.
  destruct (overlay s) as [o |] eqn:Ho.
  - destruct (closeLightbox_post s o Ho) as (s' & E & _ & Hb & _).
    rewrite E. cbn [stateOf]. rewrite Hb.
    apply tokensRemove_idempotent.
  - run_script. now rewrite Ho.
Qed.

Lemma openLightbox_classes (i : num) (s : State) :
  tokensRemove "lightbox-open"
    (bodyClassList (stateOf (openLightbox galleryLinks i s))) =
  tokensRemove "lightbox-open" (bodyClassList s).
Proof.
  destruct (openLightbox_post i s) as (s' & o & E & _ & _ & _ & Hb & _).
  rewrite E. cbn [stateOf]. rewrite Hb.
  apply tokensRemove_tokensAdd.
Qed.

Lemma showByOffset_classes (d : num) (s : State) :
  bodyClassList (stateOf (showByOffset galleryLinks d s)) = bodyClassList s.
Proof. unfold showByOffset, bind, get. apply showAt_classes. Qed.

Lemma onKeyDown_classes (event : KeyboardEvent) (s : State) :
  tokensRemove "lightbox-open"
    (bodyClassList (stateOf (onKeyDown galleryLinks event s))) =
  tokensRemove "lightbox-open" (bodyClassList s).
Proof.
  unfold onKeyDown, bind, get, ret.
  destruct (match overlay s with Some o => hidden o | None => false end);
    [reflexivity |].
  destruct (String.eqb (key event) "Escape").
  { pose proof (closeLightbox_classes s) as H.
    now destruct (closeLightbox s). }
  destruct (String.eqb (key event) "ArrowLeft").
  { pose proof (showByOffset_classes (Int (-1)) s) as H.
    destruct (showByOffset galleryLinks (Int (-1)) s); cbn in *;
      now rewrite H. }
  destruct (String.eqb (key event) "ArrowRight").
  { pose proof (showByOffset_classes (Int 1) s) as H.
    destruct (showByOffset galleryLinks (Int 1) s); cbn in *;
      now rewrite H. }
  reflexivity.
Qed.

Lemma exec_classes (o : op) (s : State) :
  tokensRemove "lightbox-open" (bodyClassList (exec galleryLinks o s)) =
  tokensRemove "lightbox-open" (bodyClassList s).
Proof.
  destruct o as [i | i | d | | idx event | event | | | | event | e | p];
    cbn [exec].
  - apply openLightbox_classes.
  - now rewrite showAt_classes.
  - now rewrite showByOffset_classes.
  - apply closeLightbox_classes.
  - unfold onLinkClick.
    destruct (defaultPrevented event || negb (button event =? 0)%Z
              || metaKey event || ctrlKey event || shiftKey event
              || altKey event); [reflexivity |].
    unfold bind, ret.
    pose proof (openLightbox_classes (Int (Z.of_nat idx)) s) as H.
    now destruct (openLightbox galleryLinks (Int (Z.of_nat idx)) s).
  - unfold onOverlayClick.
    destruct (negb (targetIsElement event)); [reflexivity |].
    destruct (closestMedia event); [reflexivity |].
    destruct (closestPrevNext event); [reflexivity |].
    destruct (closestClose event); [reflexivity |].
    apply closeLightbox_classes.
  - apply closeLightbox_classes.
  - now rewrite showByOffset_classes.
  - now rewrite showByOffset_classes.
  - apply onKeyDown_classes.
  - reflexivity.
  - reflexivity.
Qed.

Lemma run_classes (ops : list op) (s : State) :
  tokensRemove "lightbox-open" (bodyClassList (run galleryLinks ops s)) =
  tokensRemove "lightbox-open" (bodyClassList s).
Proof.
  revert s. induction ops as [| o r IH]; intros s; [reflexivity |].
  change (run galleryLinks (o :: r) s)
    with (run galleryLinks r (exec galleryLinks o s)).
  now rewrite IH, exec_classes.
Qed.

(** X9.  The script touches one class of the body only.  Whatever happens, the
    classes of the body other than "lightbox-open" stay as they are and
    in their order. *)
Theorem other_body_classes_kept (ops : list op) (s : State) :
  tokensRemove "lightbox-open" (bodyClassList (run galleryLinks ops s)) =
  tokensRemove "lightbox-open" (bodyClassList s) /\
  forall c, c <> "lightbox-open" ->
    contains c (bodyClassList (run galleryLinks ops s)) =
    contains c (bodyClassList s).
Proof.
  split; [apply run_classes |].
  intros c Hc. pose proof (run_classes ops s) as H.
  assert (K : forall cs, contains c (tokensRemove "lightbox-open" cs) =
                         contains c cs).
  { intros cs. unfold contains, tokensRemove.
    induction cs as [| x r IH]; [reflexivity |]. cbn.
    destruct (String.eqb_spec "lightbox-open" x) as [<- | Hx]; cbn.
    - rewrite IH.
      destruct (String.eqb_spec c "lightbox-open"); [congruence | reflexivity].
    - now rewrite IH. }
  now rewrite <- (K (bodyClassList (run galleryLinks ops s))), H, K.
Qed.

(** X10.  Opening and closing gives the body back its classes: after Activate,
    whatever follows, and then Deactivate, the class list of the body is
    the one before without "lightbox-open": the one before, when the page
    was not marked. *)
Theorem open_close_body_classes (i : num) (ops : list op) (s : State) :
  bodyClassList
    (stateOf (closeLightbox
                (run galleryLinks ops (exec galleryLinks (Activate i) s)))) =
  tokensRemove "lightbox-open" (bodyClassList s) /\
  (contains "lightbox-open" (bodyClassList s) = false ->
   bodyClassList
     (stateOf (closeLightbox
                 (run galleryLinks ops (exec galleryLinks (Activate i) s)))) =
   bodyClassList s).
Proof.
  assert (E : bodyClassList
                (stateOf (closeLightbox
                   (run galleryLinks ops (exec galleryLinks (Activate i) s))))
              = tokensRemove "lightbox-open" (bodyClassList s)).
  { destruct (openLightbox_post i s) as (s1 & o1 & E1 & Ho1 & _).
    cbn [exec]. rewrite E1. cbn [stateOf].
    destruct (run_keeps_root ops s1 o1 Ho1) as (o2 & Ho2 & _).
    destruct (closeLightbox_post _ o2 Ho2) as (s3 & E3 & _ & Hb3 & _).
    rewrite E3. cbn [stateOf]. rewrite Hb3, run_classes.
    pose proof (openLightbox_classes i s) as H. rewrite E1 in H. exact H. }
  split; [exact E |].
  intros H. rewrite E. now apply tokensRemove_absent.
Qed.

(** *** Open and closed *)

Lemma showAt_openOk (i : num) (s : State) :
  openOk s -> openOk (stateOf (showAt galleryLinks i s)).
Proof.
  unfold openOk. intros H.
  pose proof (showAt_sameOutside i s) as (_ & Hb & _ & _ & Hk & _).
  destruct (overlay s) as [o |] eqn:Ho.
  - destruct (showAt_returns i s o Ho) as (s' & o' & E & Ho' & _ & Hh).
    rewrite E in *. cbn [stateOf] in *. rewrite Ho', Hb, Hk, Hh. exact H.
  - rewrite (showAt_overlay_none i s Ho). congruence.
Qed.

Lemma showByOffset_openOk (d : num) (s : State) :
  openOk s -> openOk (stateOf (showByOffset galleryLinks d s)).
Proof. unfold showByOffset, bind, get. apply showAt_openOk. Qed.

Lemma closeLightbox_openOk (s : State) :
  openOk s -> openOk (stateOf (closeLightbox s)).
Proof.
  intros H. destruct (overlay s) as [o |] eqn:Ho.
  - destruct (closeLightbox_post s o Ho) as (s' & E & Ho' & _).
    rewrite E. cbn [stateOf]. unfold openOk. rewrite Ho'. cbn. discriminate.
  - run_script. now rewrite Ho.
Qed.

Lemma openLightbox_openOk (i : num) (s : State) :
  openOk (stateOf (openLightbox galleryLinks i s)).
Proof.
  destruct (openLightbox_post i s)
    as (s' & o & E & Ho & Hh & Hk & Hb & _).
  rewrite E. cbn [stateOf]. unfold openOk. rewrite Ho. intros _.
  split; [exact Hk |]. rewrite Hb. apply contains_tokensAdd.
Qed.

Lemma onKeyDown_openOk (event : KeyboardEvent) (s : State) :
  openOk s -> openOk (stateOf (onKeyDown galleryLinks event s)).
Proof.
  intros H. unfold onKeyDown, bind, get, ret.
  destruct (match overlay s with Some o => hidden o | None => false end);
    [exact H |].
  destruct (String.eqb (key event) "Escape").
  { pose proof (closeLightbox_openOk s H) as H'.
    now destruct (closeLightbox s). }
  destruct (String.eqb (key event) "ArrowLeft").
  { pose proof (showByOffset_openOk (Int (-1)) s H) as H'.
    now destruct (showByOffset galleryLinks (Int (-1)) s). }
  destruct (String.eqb (key event) "ArrowRight").
  { pose proof (showByOffset_openOk (Int 1) s H) as H'.
    now destruct (showByOffset galleryLinks (Int 1) s). }
  exact H.
Qed.

Lemma exec_openOk (o : op) (s : State) :
  openOk s -> openOk (exec galleryLinks o s).
Proof.
  intros H.
  destruct o as [i | i | d | | idx event | event | | | | event | e | p];
    cbn [exec];
    auto using openLightbox_openOk, showAt_openOk, showByOffset_openOk,
      closeLightbox_openOk, onKeyDown_openOk.
  - unfold onLinkClick.
    destruct (defaultPrevented event || negb (button event =? 0)%Z
              || metaKey event || ctrlKey event || shiftKey event
              || altKey event); [exact H |].
    unfold bind, ret.
    pose proof (openLightbox_openOk (Int (Z.of_nat idx)) s) as H'.
    now destruct (openLightbox galleryLinks (Int (Z.of_nat idx)) s).
  - unfold onOverlayClick.
    destruct (negb (targetIsElement event)); [exact H |].
    destruct (closestMedia event); [exact H |].
    destruct (closestPrevNext event); [exact H |].
    destruct (closestClose event); [exact H |].
    now apply closeLightbox_openOk.
Qed.

Lemma reachable_openOk (s : State) : reachable galleryLinks s -> openOk s.
Proof.
  induction 1 as [classes focused pres | s o _ IH].
  - reflexivity.
  - now apply exec_openOk.
Qed.

(** X11.  The widget is open or closed, and the page agrees with it.  In every
    state of a run: before the overlay is built there is no key listener,
    no focus record and nothing appended to the body; while the overlay is
    hidden the body is not marked "lightbox-open", the key listener is
    not registered and the focus record is empty; while the overlay is
    revealed the body is marked and the key listener registered. *)
Theorem open_state_agrees (s : State) :
  reachable galleryLinks s ->
  match overlay s with
  | None =>
      keydownListener s = false /\ restoreFocusTo s = None /\
      bodyOverlays s = []
  | Some o =>
      if hidden o
      then keydownListener s = false /\
           contains "lightbox-open" (bodyClassList s) = false /\
           restoreFocusTo s = None
      else keydownListener s = true /\
           contains "lightbox-open" (bodyClassList s) = true
  end.
Proof.
  intros Hr. pose proof (reachable_openOk s Hr) as Ho.
  pose proof (reachable_invariant s Hr) as [_ Hv].
  unfold openOk in Ho. unfold overlayOk in Hv.
  destruct (overlay s) as [o |].
  - destruct (hidden o); [| now apply Ho].
    destruct Hv as (_ & _ & Hv). destruct (Hv eq_refl) as (? & ? & ?). auto.
  - tauto.
Qed.

(** X12.  No listener that the page can call throws.  Activate, Deactivate and
    the click listeners of the thumbnails and of the overlay return from
    any state.  In a state of a run, the key listener returns whenever it
    is registered, and Navigate returns whenever the overlay exists, which
    is when its buttons exist. *)
Theorem listeners_return (s : State) :
  reachable galleryLinks s ->
  (forall i, returned (openLightbox galleryLinks i s) = true) /\
  returned (closeLightbox s) = true /\
  (forall idx event,
     returned (onLinkClick galleryLinks idx event s) = true) /\
  (forall event, returned (onOverlayClick event s) = true) /\
  (keydownListener s = true ->
   forall event, returned (onKeyDown galleryLinks event s) = true) /\
  (overlay s <> None ->
   forall d, returned (showByOffset galleryLinks d s) = true).
Proof.
  intros Hr.
  assert (Hopen : forall i, returned (openLightbox galleryLinks i s) = true).
  { intros i. destruct (openLightbox_returns i s) as (s' & ->). reflexivity. }
  assert (Hclose : returned (closeLightbox s) = true).
  { run_script. destruct (overlay s); [| reflexivity].
    destruct (restoreFocusTo s) as [e |]; reflexivity. }
  assert (Hnav : overlay s <> None ->
                 forall d, returned (showByOffset galleryLinks d s) = true).
  { intros Ho d. destruct (overlay s) as [o |] eqn:E; [| congruence].
    unfold showByOffset, bind, get.
    destruct (showAt_returns (add (activeIndex s) d) s o E)
      as (s' & o' & -> & _).
    reflexivity. }
  split; [exact Hopen |]. split; [exact Hclose |].
  split.
  { intros idx event. unfold onLinkClick.
    destruct (defaultPrevented event || negb (button event =? 0)%Z
              || metaKey event || ctrlKey event || shiftKey event
              || altKey event); [reflexivity |].
    unfold bind, ret. specialize (Hopen (Int (Z.of_nat idx))).
    now destruct (openLightbox galleryLinks (Int (Z.of_nat idx)) s). }
  split.
  { intros event. unfold onOverlayClick.
    destruct (negb (targetIsElement event)); [reflexivity |].
    destruct (closestMedia event); [reflexivity |].
    destruct (closestPrevNext event); [reflexivity |].
    destruct (closestClose event); [reflexivity | exact Hclose]. }
  split; [| exact Hnav].
  intros Hk event.
  assert (Ho : overlay s <> None).
  { pose proof (reachable_openOk s Hr) as H. unfold openOk in H.
    destruct (overlay s); congruence. }
  unfold onKeyDown, bind, get, ret.
  destruct (match overlay s with Some o => hidden o | None => false end);
    [reflexivity |].
  destruct (String.eqb (key event) "Escape").
  { now destruct (closeLightbox s). }
  destruct (String.eqb (key event) "ArrowLeft").
  { specialize (Hnav Ho (Int (-1))).
    now destruct (showByOffset galleryLinks (Int (-1)) s). }
  destruct (String.eqb (key event) "ArrowRight").
  { specialize (Hnav Ho (Int 1)).
    now destruct (showByOffset galleryLinks (Int 1) s). }
  reflexivity.
Qed.

(** *** The overlay shows the active item *)

Lemma getItem_empty (i : num) :
  galleryLinks = [] -> getItem galleryLinks i = None.
Proof.
  intros E. destruct (getItem galleryLinks i) as [item |] eqn:H;
    [| reflexivity].
  apply getItem_Some_Int in H as (k & _ & Hk & _).
  rewrite E in Hk. cbn in Hk. lia.
Qed.

Lemma display_overlay_eq (o o' : Overlay) (p : node) (a : string) :
  uid o = uid o' -> hidden o = hidden o' -> figureMedia o = figureMedia o' ->
  setCaptionText a (setFigureMedia (figureMedia o ++ [p]) o) =
  setCaptionText a (setFigureMedia (figureMedia o' ++ [p]) o').
Proof.
  destruct o, o'. cbn. intros -> -> ->. reflexivity.
Qed.

(** The state that [showAt] leaves when it resolves an item and the
    overlay is there. *)
Lemma showAt_state (i : num) (item : Item) (s : State) (o : Overlay) :
  overlay s = Some o -> mediaOk o ->
  getItem galleryLinks (normalize galleryLinks i) = Some item ->
  exists o1,
    showAt galleryLinks i s =
      Returns tt (setOverlay (Some o1)
                    (setActiveIndex (normalize galleryLinks i) s)) /\
    uid o1 = uid o /\ hidden o1 = hidden o /\
    match picture item with
    | Some p => figureMedia o1 = [prepareClone p] /\ captionText o1 = alt item
    | None => figureMedia o1 = [] /\ captionText o1 = captionText o
    end.
Proof.
  intros Ho Hm Hi. rewrite (showAt_item _ _ s Hi).
  pose proof (removePicture_fields o) as (Hu & Hh & Hc).
  pose proof (removePicture_ok o Hm) as He.
  destruct (picture item) as [p |] eqn:Hp.
  - rewrite (setOverlayMedia_picture item p o) by assumption.
    eexists. split; [reflexivity |]. cbn. rewrite He. auto.
  - rewrite (setOverlayMedia_no_picture item o) by assumption.
    eexists. split; [reflexivity |]. auto.
Qed.

Lemma showAt_showsActive (i : num) (s : State) :
  overlayOk s -> showsActive galleryLinks s ->
  showsActive galleryLinks (stateOf (showAt galleryLinks i s)).
Proof.
  intros Hv Hs.
  destruct (getItem galleryLinks (normalize galleryLinks i)) as [item |] eqn:Hi;
    [| now rewrite showAt_no_item].
  destruct (overlay s) as [o |] eqn:Ho.
  - assert (Hm : mediaOk o)
      by (unfold overlayOk in Hv; rewrite Ho in Hv; tauto).
    destruct (showAt_state i item s o Ho Hm Hi) as (o1 & E & _ & _ & H).
    rewrite E. cbn [stateOf]. intros o' item' Ho' Hi'. cbn in Ho', Hi'.
    injection Ho' as <-.
    assert (item' = item) by congruence. subst item'.
    destruct (picture item); tauto.
  - intros o' item' Ho'. rewrite showAt_overlay_none in Ho' by assumption.
    discriminate.
Qed.

Lemma showAt_Int_showsActive (j : Z) (s : State) :
  overlayOk s ->
  showsActive galleryLinks (stateOf (showAt galleryLinks (Int j) s)).
Proof.
  intros Hv.
  destruct galleryLinks as [| l r] eqn:El.
  { intros o item _ Hi. rewrite <- El in Hi.
    rewrite getItem_empty in Hi by assumption. discriminate. }
  rewrite <- El in *.
  assert (Hne : galleryLinks <> []) by congruence.
  destruct (getItem_normalize j Hne) as (item & Hi).
  destruct (overlay s) as [o |] eqn:Ho.
  - assert (Hm : mediaOk o)
      by (unfold overlayOk in Hv; rewrite Ho in Hv; tauto).
    destruct (showAt_state (Int j) item s o Ho Hm Hi) as (o1 & E & _ & _ & H).
    rewrite E. cbn [stateOf]. intros o' item' Ho' Hi'. cbn in Ho', Hi'.
    injection Ho' as <-.
    assert (item' = item) by congruence. subst item'.
    destruct (picture item); tauto.
  - intros o' item' Ho'. rewrite showAt_overlay_none in Ho' by assumption.
    discriminate.
Qed.

Lemma closeLightbox_showsActive (s : State) :
  showsActive galleryLinks s ->
  showsActive galleryLinks (stateOf (closeLightbox s)).
Proof.
  intros Hs. destruct (overlay s) as [o |] eqn:Ho.
  - destruct (closeLightbox_post s o Ho) as (s' & E & Ho' & _ & _ & _ & Hi & _).
    rewrite E. cbn [stateOf]. intros o' item Ho'' Hitem.
    rewrite Ho' in Ho''. injection Ho'' as <-. rewrite Hi in Hitem.
    exact (Hs o item Ho Hitem).
  - run_script. now rewrite Ho.
Qed.

Lemma listening_showsActive (s : State) :
  showsActive galleryLinks s -> showsActive galleryLinks (listening s).
Proof.
  intros Hs o item Ho Hi. apply (Hs o item).
  - unfold listening in Ho. cbn in Ho.
    now destruct (present s CloseButton).
  - unfold listening in Hi. cbn in Hi.
    now destruct (present s CloseButton).
Qed.

Lemma openLightbox_Int_showsActive (j : Z) (s : State) :
  invariant galleryLinks s ->
  showsActive galleryLinks (stateOf (openLightbox galleryLinks (Int j) s)).
Proof.
  intros H. rewrite openLightbox_steps.
  pose proof (revealed_invariant s H) as [_ Hv].
  pose proof (showAt_Int_showsActive j (revealed s) Hv) as Hs.
  destruct (overlay_revealed s) as (o & Ho & _).
  destruct (showAt_returns (Int j) _ o Ho) as (s' & o' & E & _).
  rewrite E in *. cbn [stateOf] in *. now apply listening_showsActive.
Qed.

Lemma onKeyDown_showsActive (event : KeyboardEvent) (s : State) :
  overlayOk s -> showsActive galleryLinks s ->
  showsActive galleryLinks (stateOf (onKeyDown galleryLinks event s)).
Proof.
  intros Hv H. unfold onKeyDown, bind, get, ret.
  destruct (match overlay s with Some o => hidden o | None => false end);
    [exact H |].
  destruct (String.eqb (key event) "Escape").
  { pose proof (closeLightbox_showsActive s H) as H'.
    now destruct (closeLightbox s). }
  destruct (String.eqb (key event) "ArrowLeft").
  { pose proof (showAt_showsActive (add (activeIndex s) (Int (-1))) s Hv H)
      as H'.
    unfold showByOffset, bind, get.
    now destruct (showAt galleryLinks (add (activeIndex s) (Int (-1))) s). }
  destruct (String.eqb (key event) "ArrowRight").
  { pose proof (showAt_showsActive (add (activeIndex s) (Int 1)) s Hv H)
      as H'.
    unfold showByOffset, bind, get.
    now destruct (showAt galleryLinks (add (activeIndex s) (Int 1)) s). }
  exact H.
Qed.

Lemma exec_showsActive (o : op) (s : State) :
  activatesAtIndex o = true ->
  invariant galleryLinks s -> showsActive galleryLinks s ->
  showsActive galleryLinks (exec galleryLinks o s).
Proof.
  intros Ha Hinv Hs. pose proof Hinv as [_ Hv].
  destruct o as [i | i | d | | idx event | event | | | | event | e | p];
    cbn [exec].
  - destruct i as [| j]; [discriminate |].
    now apply openLightbox_Int_showsActive.
  - now apply showAt_showsActive.
  - unfold showByOffset, bind, get. now apply showAt_showsActive.
  - now apply closeLightbox_showsActive.
  - unfold onLinkClick.
    destruct (defaultPrevented event || negb (button event =? 0)%Z
              || metaKey event || ctrlKey event || shiftKey event
              || altKey event); [exact Hs |].
    unfold bind, ret.
    pose proof (openLightbox_Int_showsActive (Z.of_nat idx) s Hinv) as H'.
    now destruct (openLightbox galleryLinks (Int (Z.of_nat idx)) s).
  - unfold onOverlayClick.
    destruct (negb (targetIsElement event)); [exact Hs |].
    destruct (closestMedia event); [exact Hs |].
    destruct (closestPrevNext event); [exact Hs |].
    destruct (closestClose event); [exact Hs |].
    now apply closeLightbox_showsActive.
  - now apply closeLightbox_showsActive.
  - unfold showByOffset, bind, get. now apply showAt_showsActive.
  - unfold showByOffset, bind, get. now apply showAt_showsActive.
  - now apply onKeyDown_showsActive.
  - exact Hs.
  - exact Hs.
Qed.

Lemma run_showsActive (ops : list op) (s : State) :
  forallb activatesAtIndex ops = true ->
  invariant galleryLinks s -> showsActive galleryLinks s ->
  showsActive galleryLinks (run galleryLinks ops s).
Proof.
  revert s. induction ops as [| o r IH]; intros s Ha Hinv Hs; [exact Hs |].
  cbn in Ha. apply andb_true_iff in Ha as [Ho Hr].
  change (run galleryLinks (o :: r) s)
    with (run galleryLinks r (exec galleryLinks o s)).
  apply IH; auto using exec_invariant, exec_showsActive.
Qed.

(** X13.  Whatever has happened on the page, the overlay shows the active item.
    In a state of a run (Activate being called with the position of a
    thumbnail) the item at the active index exists when there is a
    thumbnail at all; when the overlay exists its only media node is the
    clone of the picture of that item, with the alt text of the item as
    caption, and it has no media node when that item has no picture. *)
Theorem overlay_shows_active_item (ops : list op) (classes : list string)
  (focused : option element) (pres : element -> bool) :
  forallb activatesAtIndex ops = true ->
  let s := run galleryLinks ops (initial classes focused pres) in
  (galleryLinks <> [] ->
   exists item, getItem galleryLinks (activeIndex s) = Some item) /\
  forall o item,
    overlay s = Some o -> getItem galleryLinks (activeIndex s) = Some item ->
    mediaNodes o = match picture item with
                   | Some p => [prepareClone p]
                   | None => []
                   end /\
    (picture item <> None -> captionText o = alt item).
Proof.
  intros Ha s.
  pose proof (initial_invariant classes focused pres) as Hinv0.
  assert (Hs : showsActive galleryLinks s).
  { apply run_showsActive; auto. intros o item Ho. discriminate Ho. }
  assert (Hr : reachable galleryLinks s).
  { apply run_reachable. constructor. }
  split.
  - intros Hne. pose proof (galleryLength_pos Hne) as Hn.
    destruct (reachable_invariant s Hr) as [(k & Hk & Hrange) _].
    rewrite Hk. destruct (getItem_Int k) as (lnk & _ & E); [lia |]. eauto.
  - intros o item Ho Hi. specialize (Hs o item Ho Hi).
    destruct (picture item) as [p |] eqn:Hp.
    + destruct Hs as (Hm & Hc). split; [| auto].
      apply mediaNodes_single; [exact Hm |].
      apply prepareClone_picture.
      eapply getItem_picture_hasTag; eauto.
    + split; [| congruence].
      unfold mediaNodes, figureNode, figureChildren. cbn [childNodes].
      now rewrite Hs.
Qed.

(** *** Navigating back and forth *)






Lemma showAt_activeIndex (j : Z) (s : State) :
  galleryLinks <> [] ->
  activeIndex (stateOf (showAt galleryLinks (Int j) s)) =
  Int (j mod galleryLength galleryLinks).
Proof.
  intros Hne. destruct (getItem_normalize j Hne) as (item & Hi).
  rewrite (showAt_item _ _ s Hi), normalize_Int by assumption.
  run_script. cbn.
  destruct (overlay s); [destruct (picture item) |]; reflexivity.
Qed.






(** *** The listeners of the overlay and of the keyboard *)

(** X16.  The key listener.  While the overlay is hidden it ignores every key:
    the state and the event are as they were.  It ignores every key but
    Escape and the two arrows, and does not prevent their default.  While
    the overlay is revealed, Escape prevents the default and does what
    Deactivate does; the arrows prevent the default and do what Navigate
    by -1 and by +1 do, so they move the active index to the previous and
    the next one, around the ends. *)
Theorem keydown_policy (event : KeyboardEvent) (s : State) :
  (forall o, overlay s = Some o -> hidden o = true ->
             onKeyDown galleryLinks event s = Returns event s) /\
  (key event <> "Escape" -> key event <> "ArrowLeft" ->
   key event <> "ArrowRight" ->
   onKeyDown galleryLinks event s = Returns event s) /\
  (forall o, overlay s = Some o -> hidden o = false ->
     (key event = "Escape" ->
      exists s' o',
        closeLightbox s = Returns tt s' /\
        onKeyDown galleryLinks event s =
          Returns (keyPreventDefault event) s' /\
        overlay s' = Some o' /\ hidden o' = true) /\
     (key event = "ArrowLeft" ->
      exists s',
        showByOffset galleryLinks (Int (-1)) s = Returns tt s' /\
        onKeyDown galleryLinks event s =
          Returns (keyPreventDefault event) s' /\
        forall k, galleryLinks <> [] -> activeIndex s = Int k ->
                  activeIndex s' = Int ((k - 1) mod galleryLength galleryLinks))
     /\
     (key event = "ArrowRight" ->
      exists s',
        showByOffset galleryLinks (Int 1) s = Returns tt s' /\
        onKeyDown galleryLinks event s =
          Returns (keyPreventDefault event) s' /\
        forall k, galleryLinks <> [] -> activeIndex s = Int k ->
                  activeIndex s' =
                  Int ((k + 1) mod galleryLength galleryLinks))).
Proof.
  assert (Hnav : forall o d,
             overlay s = Some o ->
             exists s',
               showByOffset galleryLinks (Int d) s = Returns tt s' /\
               forall k, galleryLinks <> [] -> activeIndex s = Int k ->
                 activeIndex s' = Int ((k + d) mod galleryLength galleryLinks)).
  { intros o d Ho. unfold showByOffset, bind, get.
    destruct (showAt_returns (add (activeIndex s) (Int d)) s o Ho)
      as (s' & o' & E & _).
    exists s'. split; [exact E |]. intros k Hne Hk.
    pose proof (showAt_activeIndex (k + d) s Hne) as H.
    rewrite Hk in E. cbn [add] in E. rewrite E in H. exact H. }
  split; [| split].
  - intros o Ho Hh. unfold onKeyDown, bind, get, ret. now rewrite Ho, Hh.
  - intros H1 H2 H3. unfold onKeyDown, bind, get, ret.
    destruct (match overlay s with Some o => hidden o | None => false end);
      [reflexivity |].
    destruct (String.eqb_spec (key event) "Escape"); [contradiction |].
    destruct (String.eqb_spec (key event) "ArrowLeft"); [contradiction |].
    destruct (String.eqb_spec (key event) "ArrowRight"); [contradiction |].
    reflexivity.
  - intros o Ho Hh. split; [| split].
    + intros Hk.
      destruct (closeLightbox_post s o Ho) as (s' & E & Ho' & _).
      exists s', (setHidden true o). split; [exact E |].
      split; [| split; [exact Ho' | reflexivity]].
      unfold onKeyDown, bind, get, ret. rewrite Ho, Hh.
      destruct (String.eqb_spec (key event) "Escape"); [| contradiction].
      now rewrite E.
    + intros Hk. destruct (Hnav o (-1) Ho) as (s' & E & H).
      exists s'. split; [exact E |]. split; [| exact H].
      unfold onKeyDown, bind, get, ret. rewrite Ho, Hh.
      destruct (String.eqb_spec (key event) "Escape");
        [rewrite Hk in *; discriminate |].
      destruct (String.eqb_spec (key event) "ArrowLeft"); [| contradiction].
      now rewrite E.
    + intros Hk. destruct (Hnav o 1 Ho) as (s' & E & H).
      exists s'. split; [exact E |]. split; [| exact H].
      unfold onKeyDown, bind, get, ret. rewrite Ho, Hh.
      destruct (String.eqb_spec (key event) "Escape");
        [rewrite Hk in *; discriminate |].
      destruct (String.eqb_spec (key event) "ArrowLeft");
        [rewrite Hk in *; discriminate |].
      destruct (String.eqb_spec (key event) "ArrowRight"); [| contradiction].
      now rewrite E.
Qed.

(** X17.  The click listener of the overlay.  A click whose target is not an
    element, or lies in the media node, in the previous or next button or
    in the close button, leaves the state as it was: by itself it closes
    nothing.  Any other click in the overlay does what Deactivate does,
    and so leaves the overlay hidden. *)
Theorem overlay_click_policy (event : OverlayClick) (s : State) :
  (targetIsElement event = false \/ closestMedia event = true \/
   closestPrevNext event = true \/ closestClose event = true ->
   onOverlayClick event s = Returns tt s) /\
  (targetIsElement event = true -> closestMedia event = false ->
   closestPrevNext event = false -> closestClose event = false ->
   onOverlayClick event s = closeLightbox s /\
   forall o, overlay s = Some o ->
     exists s' o',
       onOverlayClick event s = Returns tt s' /\
       overlay s' = Some o' /\ hidden o' = true /\
       keydownListener s' = false).
Proof.
  unfold onOverlayClick. split.
  - intros H.
    destruct (targetIsElement event), (closestMedia event),
      (closestPrevNext event), (closestClose event); cbn; try reflexivity.
    destruct H as [H | [H | [H | H]]]; discriminate.
  - intros -> -> -> ->. cbn. split; [reflexivity |].
    intros o Ho.
    destruct (closeLightbox_post s o Ho) as (s' & E & Ho' & _ & Hk & _).
    exists s', (setHidden true o). auto.
Qed.

(** X18.  Activate on an open lightbox records the focus anew.  When the close
    button can take focus, a second Activate finds the focus on it and
    records it in place of the element recorded first; Deactivate then
    leaves the focus on the close button and does not give it back to the
    element focused before the first Activate. *)
Theorem reactivate_records_close_button (i j : num) (s : State) :
  present s CloseButton = true ->
  let s2 := exec galleryLinks (Activate j) (exec galleryLinks (Activate i) s) in
  restoreFocusTo (exec galleryLinks (Activate i) s) = focusedHTMLElement s /\
  restoreFocusTo s2 = Some CloseButton /\
  activeElement (stateOf (closeLightbox s2)) = Some CloseButton /\
  restoreFocusTo (stateOf (closeLightbox s2)) = None.
Proof.
  intros Hp s2. subst s2. cbn [exec].
  destruct (openLightbox_post i s)
    as (s1 & o1 & E1 & _ & _ & _ & _ & Hf1 & Ha1 & Hp1).
  rewrite E1. cbn [stateOf]. rewrite Hp in Ha1.
  destruct (openLightbox_post j s1)
    as (s2 & o2 & E2 & Ho2 & _ & _ & _ & Hf2 & Ha2 & Hp2).
  rewrite E2. cbn [stateOf].
  assert (Hrec : restoreFocusTo s2 = Some CloseButton).
  { rewrite Hf2. unfold focusedHTMLElement. now rewrite Ha1. }
  destruct (closeLightbox_focus s2 o2 Ho2) as (_ & Hn & Hact).
  repeat split; try assumption.
  rewrite Hact, Hrec, Hp2, Hp1, Hp. reflexivity.
Qed.

End Facts.

(** *** The claims on the sample page *)
Section OnTheSamplePage.
Import Samples.

Lemma page_reachable : reachable gallery page.
Proof.
  exact (reachable_initial gallery [] (Some (GalleryLink 0)) everything).
Qed.

Lemma opened_reachable : reachable gallery opened.
Proof.
  exact (reachable_exec gallery page (Activate (Int 0)) page_reachable).
Qed.

Lemma activate_displays_item_witness :
  reachable gallery page /\
  getItem gallery (Int (Z.of_nat 0)) = Some itemA /\
  picture itemA = Some pictureA /\
  shows 0 pictureA "Knippen" (openLightbox gallery (Int 0) page).
Proof.
  split; [exact page_reachable |].
  split; [reflexivity |]. split; [reflexivity |].
  exact (proj1 (activate_displays_item gallery 0 itemA pictureA page
                  page_reachable eq_refl eq_refl)).
Defined.

Lemma showAt_wraps_witness :
  gallery <> [] /\
  normalize gallery (Int (-1)) = Int 2 /\
  activeIndex (stateOf (showAt gallery (Int 7) page)) = Int 1.
Proof.
  assert (Hne : gallery <> []) by discriminate.
  pose proof (showAt_wraps gallery 7 page Hne) as H. cbv zeta in H.
  split; [exact Hne |]. split.
  - exact (proj1 (proj2 (proj2 (proj2 (proj2 H))))).
  - exact (proj1 (proj2 (proj2 H))).
Defined.

Lemma closedAgain_reachable : reachable gallery closedAgain.
Proof. apply run_reachable. exact page_reachable. Qed.

Lemma at_most_one_media_witness :
  reachable gallery opened /\
  overlay opened = Some openedOverlay /\
  (List.length (mediaNodes openedOverlay) <= 1)%nat.
Proof.
  split; [exact opened_reachable |]. split; [reflexivity |].
  exact (proj1 (at_most_one_media gallery opened openedOverlay
                  opened_reachable eq_refl)).
Defined.

Lemma activeIndex_in_range_witness :
  gallery <> [] /\ reachable gallery opened /\
  exists k, activeIndex opened = Int k /\ 0 <= k < galleryLength gallery.
Proof.
  assert (Hne : gallery <> []) by discriminate.
  split; [exact Hne |]. split; [exact opened_reachable |].
  exact (activeIndex_in_range gallery opened Hne opened_reachable).
Defined.

Lemma showAt_periodic_witness :
  gallery <> [] /\
  showAt gallery (Int (1 + 2 * galleryLength gallery)) opened =
  showAt gallery (Int 1) opened.
Proof.
  assert (Hne : gallery <> []) by discriminate.
  split; [exact Hne |].
  exact (showAt_periodic gallery 1 2 opened Hne).
Defined.

Lemma link_click_policy_witness :
  ctrlKey ctrlClick = true /\
  onLinkClick gallery 1 ctrlClick page = Returns ctrlClick page /\
  exists s' o,
    openLightbox gallery (Int (Z.of_nat 1)) page = Returns tt s' /\
    onLinkClick gallery 1 plainClick page =
      Returns (preventDefault plainClick) s' /\
    defaultPrevented (preventDefault plainClick) = true /\
    overlay s' = Some o /\ hidden o = false.
Proof.
  split; [reflexivity |]. split.
  - exact (proj1 (link_click_policy gallery 1 ctrlClick page)
             (or_introl eq_refl)).
  - exact (proj2 (link_click_policy gallery 1 plainClick page)
             eq_refl eq_refl eq_refl eq_refl eq_refl eq_refl).
Defined.

Lemma overlay_built_once_witness :
  reachable gallery page /\
  exists o1 o2,
    overlay (exec gallery (Activate (Int 0)) page) = Some o1 /\
    bodyOverlays (exec gallery (Activate (Int 0)) page) = [uid o1] /\
    match overlay page with
    | Some o => uid o1 = uid o /\ bodyOverlays page = [uid o]
    | None => bodyOverlays page = []
    end /\
    overlay (run gallery [Deactivate; Activate (Int 1)]
               (exec gallery (Activate (Int 0)) page)) = Some o2 /\
    uid o2 = uid o1 /\
    bodyOverlays (run gallery [Deactivate; Activate (Int 1)]
                    (exec gallery (Activate (Int 0)) page)) = [uid o1].
Proof.
  split; [exact page_reachable |].
  exact (overlay_built_once gallery page (Int 0)
           [Deactivate; Activate (Int 1)] page_reachable).
Defined.

Lemma close_noop_when_closed_witness :
  reachable gallery closedAgain /\
  (exists o, overlay closedAgain = Some o /\ hidden o = true) /\
  closeLightbox closedAgain = Returns tt closedAgain.
Proof.
  assert (Hh : exists o, overlay closedAgain = Some o /\ hidden o = true).
  { eexists. split; reflexivity. }
  split; [exact closedAgain_reachable |]. split; [exact Hh |].
  exact (close_noop_when_closed gallery closedAgain closedAgain_reachable
           (or_intror Hh)).
Defined.

Lemma close_restores_recorded_focus_witness :
  forallb keepsOpen [Navigate (Int 1); UserFocus (Some NextButton)] = true /\
  activeElement page = Some (GalleryLink 0) /\
  activeElement
    (run gallery [Navigate (Int 1); UserFocus (Some NextButton)]
       (exec gallery (Activate (Int 0)) page)) = Some NextButton /\
  activeElement
    (stateOf
       (closeLightbox
          (run gallery [Navigate (Int 1); UserFocus (Some NextButton)]
             (exec gallery (Activate (Int 0)) page)))) =
  Some (GalleryLink 0).
Proof.
  split; [reflexivity |]. split; [reflexivity |]. split; [reflexivity |].
  pose proof (close_restores_recorded_focus gallery page (Int 0)
                [Navigate (Int 1); UserFocus (Some NextButton)] eq_refl) as H.
  cbv zeta in H.
  exact (proj1 (proj2 (proj2 (proj2 (proj2 (proj2 H)))))
           (GalleryLink 0) eq_refl eq_refl eq_refl).
Defined.

Lemma display_without_picture_witness :
  reachable gallery opened /\
  overlay opened = Some openedOverlay /\
  getItem gallery (normalize gallery (Int 2)) = Some itemC /\
  picture itemC = None /\
  exists s' o',
    showAt gallery (Int 2) opened = Returns tt s' /\
    activeIndex s' = normalize gallery (Int 2) /\
    overlay s' = Some o' /\
    mediaNodes o' = [] /\
    figureChildren o' = [captionNode openedOverlay] /\
    captionText o' = captionText openedOverlay /\
    hidden o' = hidden openedOverlay /\
    uid o' = uid openedOverlay /\
    sameOutside opened s'.
Proof.
  split; [exact opened_reachable |]. split; [reflexivity |].
  split; [reflexivity |]. split; [reflexivity |].
  exact (proj2 (display_without_picture gallery (Int 2) opened openedOverlay
                  opened_reachable eq_refl)
           itemC eq_refl eq_refl).
Defined.

(** C5 as it was stated fails: after the first thumbnail was opened,
    DisplayItem of the third one, which has no picture, makes it the
    active item and removes the media node; it is not a no-op. *)
Lemma display_without_picture_is_not_a_noop :
  reachable gallery opened /\
  getItem gallery (normalize gallery (Int 2)) = Some itemC /\
  picture itemC = None /\
  activeIndex opened = Int 0 /\
  activeIndex (stateOf (showAt gallery (Int 2) opened)) = Int 2 /\
  option_map mediaNodes (overlay opened) = Some [prepareClone pictureA] /\
  option_map mediaNodes (overlay (stateOf (showAt gallery (Int 2) opened))) =
    Some [] /\
  stateOf (showAt gallery (Int 2) opened) <> opened.
Proof.
  split; [exact opened_reachable |].
  repeat (split; [reflexivity |]).
  intros E. apply (f_equal activeIndex) in E. discriminate E.
Qed.

(** C8 as it was stated fails: with the focus on an SVG element, which is
    not an HTMLElement, Activate records nothing, and Deactivate leaves
    the focus on the close button although the element is still there. *)
Lemma svg_focus_is_not_restored :
  activeElement svgFocused = Some (PageElement 0 false) /\
  restoreFocusTo (exec gallery (Activate (Int 0)) svgFocused) = None /\
  present svgClosed (PageElement 0 false) = true /\
  activeElement svgClosed = Some CloseButton /\
  activeElement svgClosed <> activeElement svgFocused.
Proof.
  repeat (split; [reflexivity |]). discriminate.
Qed.

(** *** More of the script on the sample page *)


Lemma getItem_bounds_witness :
  getItem gallery (Int 3) = None /\
  exists k,
    Int 1 = Int k /\ 0 <= k < galleryLength gallery /\
    nth_error gallery (Z.to_nat k) = Some (link itemB).
Proof.
  split.
  - apply (proj2 (proj1 (getItem_bounds gallery (Int 3)))).
    right. vm_compute. discriminate.
  - destruct (proj2 (getItem_bounds gallery (Int 1)) itemB eq_refl)
      as (k & H1 & H2 & H3 & _).
    exists k. auto.
Defined.

Lemma prepareClone_image_witness :
  querySelector "img" pictureA = Some imageA /\
  exists img',
    querySelector "img" (prepareClone pictureA) = Some img' /\
    getAttribute "loading" img' = Some "eager" /\
    getAttribute "sizes" img' = Some "100vw" /\
    getAttribute "alt" img' = Some "Knippen".
Proof.
  split; [reflexivity |].
  destruct (proj1 (prepareClone_image pictureA) imageA eq_refl)
    as (img' & H1 & H2 & _ & H4 & H5 & _).
  exists img'. repeat split; try assumption.
  rewrite (H5 "alt" eq_refl). reflexivity.
Defined.

Lemma showAt_frame_witness :
  overlay opened = Some openedOverlay /\
  sameOutside opened (stateOf (showAt gallery (Int 5) opened)) /\
  exists o', overlay (stateOf (showAt gallery (Int 5) opened)) = Some o' /\
             uid o' = uid openedOverlay /\ hidden o' = hidden openedOverlay.
Proof.
  split; [reflexivity |].
  pose proof (showAt_frame gallery (Int 5) opened) as (H1 & _ & H3 & _).
  split; [exact H1 |].
  exact (proj1 (H3 openedOverlay eq_refl)).
Defined.

Lemma showAt_throws_iff_witness :
  overlay page = None /\
  getItem gallery (normalize gallery (Int 4)) <> None /\
  returned (showAt gallery (Int 4) page) = false /\
  showAt gallery (Int 4) page =
    Throws (setActiveIndex (normalize gallery (Int 4)) page).
Proof.
  assert (H : overlay page = None /\
              getItem gallery (normalize gallery (Int 4)) <> None).
  { split; [reflexivity | discriminate]. }
  pose proof (showAt_throws_iff gallery (Int 4) page) as (H1 & H2).
  destruct H as (Ha & Hb).
  split; [exact Ha |]. split; [exact Hb |].
  split; [exact (proj2 H1 (conj Ha Hb)) |].
  exact (H2 (proj2 H1 (conj Ha Hb))).
Defined.

Lemma showAt_nothing_to_show_witness :
  showAt [] (Int 2) opened = Returns tt opened /\
  showAt gallery NaN opened = Returns tt opened.
Proof.
  split.
  - exact (showAt_nothing_to_show [] (Int 2) opened (or_introl eq_refl)).
  - exact (showAt_nothing_to_show gallery NaN opened (or_intror eq_refl)).
Defined.

Lemma deactivate_closes_witness :
  overlay opened = Some openedOverlay /\
  exists s' o',
    closeLightbox opened = Returns tt s' /\
    overlay s' = Some o' /\ hidden o' = true /\
    uid o' = uid openedOverlay /\
    figureChildren o' = figureChildren openedOverlay /\
    activeIndex s' = activeIndex opened /\
    contains "lightbox-open" (bodyClassList s') = false /\
    keydownListener s' = false /\
    restoreFocusTo s' = None.
Proof.
  split; [reflexivity |].
  exact (deactivate_closes opened openedOverlay eq_refl).
Defined.

Lemma other_body_classes_kept_witness :
  "home" <> "lightbox-open" /\
  contains "home"
    (bodyClassList (run gallery [Activate (Int 1); Navigate (Int 1)]
                      styledPage)) =
  contains "home" (bodyClassList styledPage).
Proof.
  assert (H : "home" <> "lightbox-open") by discriminate.
  split; [exact H |].
  exact (proj2 (other_body_classes_kept gallery
                  [Activate (Int 1); Navigate (Int 1)] styledPage)
           "home" H).
Defined.

Lemma open_close_body_classes_witness :
  contains "lightbox-open" (bodyClassList styledPage) = false /\
  bodyClassList
    (stateOf (closeLightbox
                (run gallery [Navigate (Int 1)]
                   (exec gallery (Activate (Int 0)) styledPage)))) =
  bodyClassList styledPage.
Proof.
  split; [reflexivity |].
  exact (proj2 (open_close_body_classes gallery (Int 0) [Navigate (Int 1)]
                  styledPage) eq_refl).
Defined.

Lemma open_state_agrees_witness :
  reachable gallery closedAgain /\
  match overlay closedAgain with
  | None =>
      keydownListener closedAgain = false /\
      restoreFocusTo closedAgain = None /\ bodyOverlays closedAgain = []
  | Some o =>
      if hidden o
      then keydownListener closedAgain = false /\
           contains "lightbox-open" (bodyClassList closedAgain) = false /\
           restoreFocusTo closedAgain = None
      else keydownListener closedAgain = true /\
           contains "lightbox-open" (bodyClassList closedAgain) = true
  end.
Proof.
  split; [exact closedAgain_reachable |].
  exact (open_state_agrees gallery closedAgain closedAgain_reachable).
Defined.

Lemma listeners_return_witness :
  reachable gallery opened /\
  keydownListener opened = true /\
  returned (onKeyDown gallery escapeKey opened) = true.
Proof.
  split; [exact opened_reachable |]. split; [reflexivity |].
  pose proof (listeners_return gallery opened opened_reachable)
    as (_ & _ & _ & _ & H & _).
  exact (H eq_refl escapeKey).
Defined.

Lemma overlay_shows_active_item_witness :
  forallb activatesAtIndex
    [Activate (Int 0); Navigate (Int 1); Deactivate] = true /\
  exists item,
    getItem gallery
      (activeIndex (run gallery [Activate (Int 0); Navigate (Int 1); Deactivate]
                      page)) = Some item.
Proof.
  split; [reflexivity |].
  pose proof (overlay_shows_active_item gallery
                [Activate (Int 0); Navigate (Int 1); Deactivate]
                [] (Some (GalleryLink 0)) everything eq_refl) as H.
  cbv zeta in H.
  apply (proj1 H). discriminate.
Defined.



Lemma keydown_policy_witness :
  overlay opened = Some openedOverlay /\ key escapeKey = "Escape" /\
  exists s' o',
    closeLightbox opened = Returns tt s' /\
    onKeyDown gallery escapeKey opened =
      Returns (keyPreventDefault escapeKey) s' /\
    overlay s' = Some o' /\ hidden o' = true.
Proof.
  split; [reflexivity |]. split; [reflexivity |].
  pose proof (keydown_policy gallery escapeKey opened) as (_ & _ & H).
  exact (proj1 (H openedOverlay eq_refl eq_refl) eq_refl).
Defined.

Lemma overlay_click_policy_witness :
  closestMedia pictureClick = true /\
  onOverlayClick pictureClick opened = Returns tt opened /\
  onOverlayClick backdropClick opened = closeLightbox opened.
Proof.
  split; [reflexivity |]. split.
  - exact (proj1 (overlay_click_policy pictureClick opened)
             (or_intror (or_introl eq_refl))).
  - exact (proj1 (proj2 (overlay_click_policy backdropClick opened)
                    eq_refl eq_refl eq_refl eq_refl)).
Defined.

Lemma reactivate_records_close_button_witness :
  present page CloseButton = true /\
  activeElement page = Some (GalleryLink 0) /\
  activeElement
    (stateOf
       (closeLightbox
          (exec gallery (Activate (Int 1))
             (exec gallery (Activate (Int 0)) page)))) = Some CloseButton.
Proof.
  split; [reflexivity |]. split; [reflexivity |].
  pose proof (reactivate_records_close_button gallery (Int 0) (Int 1) page
                eq_refl) as H.
  cbv zeta in H. exact (proj1 (proj2 (proj2 H))).
Defined.

End OnTheSamplePage.

End LightboxFacts.
